(** * nslookup: an iterative DNS resolver (orestonce/nslookup, main.go)

    A shallow embedding of the Go package [nslookup] and the properties of
    its resolution engine.  The package has four layers, leaves first:

    - [exchangePacket]: one length-prefixed request and reply on a
      connection;
    - [gDialRemote]: the race of dial attempts over a list of addresses;
    - [lookupResourceListL1]: the referral loop from the root servers;
    - [LookupA] .. [LookupMX]: the projections of the answer list.

    Go values are modelled as follows.  A [[]byte] is a [list byte]; a
    [uint16] or [uint32] is a [Z] with its wrap-around written out; a Go
    [string] is a [string]; an [error] is a value of the inductive type
    [error]; a run-time panic is the outcome [Panic].  The network and the
    goroutine scheduler are oracles passed as arguments ([World]), the
    [dnsmessage] codec is the record [Codec]. *)

From Stdlib Require Import ZArith String Ascii Bool Lia DecimalString.
From Stdlib Require Import Strings.Byte.
From Stdlib Require Import List Permutation Sorted.
Import ListNotations.

Local Open Scope string_scope.
Local Open Scope list_scope.
Local Open Scope Z_scope.

(** ** Errors and outcomes *)

(** The error values the package can return.  [ErrNotFound] and
    [ErrMaxDepth] are the package variables of main.go; the others stand
    for the [errors.New] value of [gDialRemote] and for the errors of the
    libraries below it. *)
Inductive error : Type :=
| ErrNotFound
| ErrMaxDepth
| ErrTargetAddrListNil
| ErrDial (addr : string)
| ErrWrite
| EOF
| ErrUnexpectedEOF
| ErrCodec (msg : string).

(** What a Go call does: return a value, return an error, or panic.
    [Fuel] is not a Go behaviour: it marks a run of the model that used up
    its step budget, which no call does ([lookupResourceListL1_total]). *)
Inductive outcome (A : Type) : Type :=
| Ok (a : A)
| Err (e : error)
| Panic (msg : string)
| Fuel.

Arguments Ok {A} a.
Arguments Err {A} e.
Arguments Panic {A} msg.
Arguments Fuel {A}.

(** An outcome that is not a value, at another type: how an early
    [return nil, err] (or a panic) leaves the enclosing function. *)
Definition fail_as {A B} (o : outcome A) : outcome B :=
  match o with
  | Ok _ => Panic "unreachable"
  | Err e => Err e
  | Panic m => Panic m
  | Fuel => Fuel
  end.

(** What a call into the codec library gives: a value or an error. *)
Inductive result_of (A : Type) : Type :=
| Success (a : A)
| Failure (e : error).

Arguments Success {A} a.
Arguments Failure {A} e.

(** ** Bytes and fixed-width integers *)

Definition MaxUint16 : Z := 65535.

Definition uint16 (z : Z) : Z := z mod 65536.
Definition uint32 (z : Z) : Z := z mod 4294967296.

(** The Go conversion [byte(v)]: the low eight bits. *)
Definition byte_of_Z (z : Z) : byte :=
  match Byte.of_N (Z.to_N (z mod 256)) with
  | Some b => b
  | None => x00
  end.

Definition Z_of_byte (b : byte) : Z := Z.of_N (Byte.to_N b).

(** ** Slices

    A slice is modelled by the list of its elements; the capacity of
    [temp] in [exchangePacket] is the length of the list it was made
    with. *)

(** [b[i] = x]; out of range the Go statement panics, which the callers
    below exclude by a length test. *)
Fixpoint set_nth (i : nat) (x : byte) (b : list byte) : list byte :=
  match b, i with
  | [], _ => []
  | _ :: t, O => x :: t
  | h :: t, S j => h :: set_nth j x t
  end.

(** The builtin [copy(dst, src)]: the first [min(len dst, len src)]
    elements of [dst] are overwritten. *)
Definition copy (dst src : list byte) : list byte :=
  let n := Nat.min (length dst) (length src) in
  firstn n src ++ skipn n dst.

(** [copy(b[lo:], src)] seen from [b]. *)
Definition copy_at (lo : nat) (b src : list byte) : list byte :=
  firstn lo b ++ copy (skipn lo b) src.

(** [b[lo:hi]], with the bounds check of the Go run time. *)
Definition slice (b : list byte) (lo hi : nat) : outcome (list byte) :=
  if (lo <=? hi)%nat && (hi <=? length b)%nat
  then Ok (firstn (hi - lo) (skipn lo b))
  else Panic "slice bounds out of range".

(** [binary.BigEndian.PutUint16(b, v)]. *)
Definition PutUint16 (b : list byte) (v : Z) : outcome (list byte) :=
  if (2 <=? length b)%nat
  then Ok (set_nth 1 (byte_of_Z v) (set_nth 0 (byte_of_Z (Z.shiftr v 8)) b))
  else Panic "index out of range".

(** [binary.BigEndian.Uint16(b)]. *)
Definition Uint16 (b : list byte) : outcome Z :=
  match b with
  | b0 :: b1 :: _ => Ok (Z.lor (Z_of_byte b1) (Z.shiftl (Z_of_byte b0) 8))
  | _ => Panic "index out of range"
  end.

(** ** Connections

    A [net.Conn] as the package uses it: [Write], reads through
    [io.ReadFull], and [Close].  [peer] is the remote end: the bytes it
    sends back for the bytes of one [Write].  [unread] holds what has
    arrived and was not read yet; after it the stream is at its end.
    [wlog] records each [Write] call with its argument. *)
Record Conn : Type := mkConn {
  remote : string;
  peer : list byte -> list byte;
  unread : list byte;
  wlog : list (list byte);
  wbroken : bool;
  closed : bool
}.

Definition conn_Write (c : Conn) (p : list byte) : option error * Conn :=
  if wbroken c then (Some ErrWrite, c)
  else (None, mkConn (remote c) (peer c) (unread c ++ peer c p)
                     (wlog c ++ [p]) (wbroken c) (closed c)).

(** [io.ReadFull(conn, buf)] with [len(buf) = n]: exactly [n] bytes, or
    an error; [EOF] when no byte was read, [ErrUnexpectedEOF] after a
    part of them. *)
Definition io_ReadFull (c : Conn) (n : nat) : outcome (list byte) * Conn :=
  if (n <=? length (unread c))%nat
  then (Ok (firstn n (unread c)),
        mkConn (remote c) (peer c) (skipn n (unread c))
               (wlog c) (wbroken c) (closed c))
  else (Err (match unread c with [] => EOF | _ => ErrUnexpectedEOF end),
        mkConn (remote c) (peer c) [] (wlog c) (wbroken c) (closed c)).

Definition conn_Close (c : Conn) : Conn :=
  mkConn (remote c) (peer c) (unread c) (wlog c) (wbroken c) true.

(** ** Message exchange: [exchangePacket] (main.go, lines 252-271)

    [n] has the type [uint16], so the end [2+n] of the slice
    [temp[2:2+n]] is computed in [uint16] and wraps around at 65536. *)

Definition exchangePacket (conn : Conn) (send : list byte)
  : outcome (list byte) * Conn :=
  let temp := repeat x00 (Z.to_nat (2 + MaxUint16)) in
  match PutUint16 temp (uint16 (Z.of_nat (length send))) with
  | Ok temp =>
    let temp := copy_at 2 temp send in
    match slice temp 0 (2 + length send) with
    | Ok out =>
      match conn_Write conn out with
      | (Some e, conn) => (Err e, conn)
      | (None, conn) =>
        match io_ReadFull conn 2 with
        | (Ok hdr, conn) =>
          let temp := copy_at 0 temp hdr in
          match Uint16 temp with
          | Ok n =>
            let hi := Z.to_nat (uint16 (2 + n)) in
            match slice temp 2 hi with
            | Ok buf =>
              match io_ReadFull conn (length buf) with
              | (Ok body, conn) =>
                let temp := copy_at 2 temp body in
                (slice temp 2 hi, conn)
              | (o, conn) => (fail_as o, conn)
              end
            | o => (fail_as o, conn)
            end
          | o => (fail_as o, conn)
          end
        | (o, conn) => (fail_as o, conn)
        end
      end
    | o => (fail_as o, conn)
    end
  | o => (fail_as o, conn)
  end.

(** The frame of a payload, as the protocol describes it: the length in
    two bytes, high byte first, then the payload. *)
Definition frame (payload : list byte) : list byte :=
  byte_of_Z (Z.shiftr (Z.of_nat (length payload)) 8)
    :: byte_of_Z (Z.of_nat (length payload)) :: payload.

(** A connection to a peer that sends back what it receives. *)
Definition loopback : Conn :=
  mkConn "loopback" (fun p => p) [] [] false false.

(** ** Strings *)

(** [strings.HasSuffix(s, suffix)]:
    [len(s) >= len(suffix) && s[len(s)-len(suffix):] == suffix]. *)
Definition HasSuffix (s suffix : string) : bool :=
  (String.length suffix <=? String.length s)%nat
  && (substring (String.length s - String.length suffix)
                (String.length suffix) s =? suffix)%string.

(** [strings.TrimSuffix(s, suffix)]. *)
Definition TrimSuffix (s suffix : string) : string :=
  if HasSuffix s suffix
  then substring 0 (String.length s - String.length suffix) s
  else s.

(** [strconv.Itoa] on the value of a byte. *)
Definition itoa (b : byte) : string :=
  NilEmpty.string_of_uint (N.to_uint (Byte.to_N b)).

(** ** DNS messages: the part of [dnsmessage] that the package reads *)

Inductive RType : Type :=
| TypeA | TypeNS | TypeCNAME | TypeSOA | TypeMX | TypeTXT | TypeOther (code : Z).

Definition ClassINET : Z := 1.

(** A [dnsmessage.Name]; [Name_String] is its method [String]. *)
Record Name : Type := mkName { Name_String : string }.

(** The bodies a resource can carry.  [OtherResource] stands for every
    body type the package has no type assertion for. *)
Inductive ResourceBody : Type :=
| AResource (A : byte * byte * byte * byte)
| NSResource (NS : Name)
| CNAMEResource (CNAME : Name)
| SOAResource (NS MBox : Name) (Serial Refresh Retry Expire MinTTL : Z)
| MXResource (Pref : Z) (MX : Name)
| TXTResource (TXT : list string)
| OtherResource (code : Z).

Record Resource : Type := mkResource {
  RName : Name;
  RTTL : Z;
  Body : ResourceBody
}.

Record Header : Type := mkHeader {
  ID : Z;
  Response : bool;
  OpCode : Z;
  Authoritative : bool;
  Truncated : bool;
  RecursionDesired : bool;
  RecursionAvailable : bool;
  RCode : Z
}.

Record Question : Type := mkQuestion {
  QName : Name;
  QType : RType;
  QClass : Z
}.

Record Message : Type := mkMessage {
  MHeader : Header;
  Questions : list Question;
  Answers : list Resource;
  Authorities : list Resource;
  Additionals : list Resource
}.

(** The functions of the codec library the package calls:
    [dnsmessage.NewName], [Message.Pack] and [Message.Unpack]. *)
Record Codec : Type := mkCodec {
  NewName : string -> result_of Name;
  Pack : Message -> result_of (list byte);
  Unpack : list byte -> result_of Message
}.

(** ** The connection broker: [gDialRemote] (main.go, lines 214-250) *)

(** What [DialContext] gives one goroutine. *)
Inductive DialOutcome : Type :=
| Connected (c : Conn)
| Refused (e : error).

(** The variables the goroutines share, and a log of what they did:
    [spawned] lists the goroutines started, [dropped] the connections
    closed because another attempt had won, [cancels] counts the calls
    of [cancelFn]. *)
Record Race : Type := mkRace {
  conn : option Conn;
  errList : list error;
  spawned : list (nat * string);
  dropped : list Conn;
  cancels : nat
}.

Definition race0 : Race := mkRace None [] [] [] 0.

(** The loop [for _, addr := range targetAddrList]: one goroutine per
    address, in the order of the list. *)
Definition spawn_all (targetAddrList : list string) : list (nat * string) :=
  fold_left (fun tasks addr => tasks ++ [(length tasks, addr)])
            targetAddrList [].

(** The body of a goroutine from [locker.Lock()] on; it runs under the
    mutex, so it is one step on the shared variables. *)
Definition dial_task (r : DialOutcome) (s : Race) : Race :=
  match r with
  | Refused err0 =>
    mkRace (conn s) (errList s ++ [err0]) (spawned s) (dropped s) (cancels s)
  | Connected conn0 =>
    match conn s with
    | Some _ =>
      mkRace (conn s) (errList s) (spawned s)
             (dropped s ++ [conn_Close conn0]) (cancels s)
    | None =>
      mkRace (Some conn0) (errList s) (spawned s) (dropped s) (S (cancels s))
    end
  end.

Fixpoint remove_nth {A} (i : nat) (l : list A) : list A :=
  match l, i with
  | [], _ => []
  | _ :: t, O => t
  | h :: t, S j => h :: remove_nth j t
  end.

(** The order in which the goroutines take the mutex.  The scheduler is
    a list of choices: each picks one of the goroutines that have not
    run yet.  Every list of choices gives an order, and the order is a
    permutation of the goroutines ([lock_order_perm]). *)
Fixpoint lock_order_n {A} (n : nat) (choices : list nat) (tasks : list A)
  : list A :=
  match n, tasks with
  | S n', t0 :: _ =>
    let i := (hd 0%nat choices mod length tasks)%nat in
    nth i tasks t0 :: lock_order_n n' (tl choices) (remove_nth i tasks)
  | _, _ => []
  end.

Definition lock_order {A} (choices : list nat) (tasks : list A) : list A :=
  lock_order_n (length tasks) choices tasks.

Definition gDialRemote (dial : nat -> string -> DialOutcome)
           (choices : list nat) (targetAddrList : list string)
  : outcome Conn * Race :=
  if (length targetAddrList =? 0)%nat
  then (Err ErrTargetAddrListNil, race0)
  else
    let tasks := spawn_all targetAddrList in
    let s :=
      fold_left (fun s t => dial_task (dial (fst t) (snd t)) s)
                (lock_order choices tasks)
                (mkRace None [] tasks [] 0) in
    match conn s with
    | None =>
      match errList s with
      | e :: _ => (Err e, s)
      | [] => (Panic "index out of range", s)
      end
    | Some c => (Ok c, s)
    end.

(** ** The resolution engine: [lookupResourceListL1] (lines 142-212) *)

Definition gRootServers : list string :=
  [ "198.41.0.4:53"; "192.228.79.201:53"; "192.33.4.12:53";
    "128.8.10.90:53"; "192.203.230.10:53"; "192.5.5.241:53";
    "192.112.36.4:53"; "128.63.2.53:53"; "192.36.148.17:53";
    "192.58.128.30:53"; "193.0.14.129:53"; "199.7.83.42:53";
    "202.12.27.33:53" ].

(** The network and the scheduler during one call, by the depth of the
    hop: what dialing the address at a position of the server list
    gives, and the choices of the scheduler. *)
Record World : Type := mkWorld {
  dialer : Z -> nat -> string -> DialOutcome;
  scheduler : Z -> list nat
}.

(** One turn of the loop that reached [gDialRemote]: its depth, the
    server list passed to the broker, the race, the connection as the
    turn left it and the decoded reply when there was one. *)
Record Hop : Type := mkHop {
  hop_depth : Z;
  hop_servers : list string;
  hop_race : Race;
  hop_conn : option Conn;
  hop_reply : option Message
}.

(** The loop over the authority section that builds [nsList]. *)
Definition referral (authorities : list Resource) : list string :=
  fold_left
    (fun nsList one =>
       match Body one with
       | NSResource ns =>
         nsList ++ [(TrimSuffix (Name_String ns) "." ++ ":53")%string]
       | _ => nsList
       end)
    authorities [].

(** What one turn of the loop [for depth := 0; ; depth++] ends in: a
    [return], after a hop or before any, or the next turn with a new
    server list. *)
Inductive turn : Type :=
| Return (r : outcome (list Resource)) (hop : option Hop)
| Continue (hop : Hop) (serverList : list string).

(** The body of the loop.  [conn.Close()] is the statement after the
    call of [exchangePacket]: it runs when the call returns, with a
    reply or with an error, and not when the call panics. *)
Definition loop_body (cd : Codec) (w : World) (send : list byte)
           (depth : Z) (serverList : list string) : turn :=
  if depth >? 10 then Return (Err ErrMaxDepth) None
  else
    match gDialRemote (dialer w depth) (scheduler w depth) serverList with
    | (Ok conn, race) =>
      let (received, conn) := exchangePacket conn send in
      match received with
      | Ok receive =>
        let conn := conn_Close conn in
        match Unpack cd receive with
        | Success receiveMsg =>
          let hop :=
            mkHop depth serverList race (Some conn) (Some receiveMsg) in
          if (0 <? length (Answers receiveMsg))%nat
          then Return (Ok (Answers receiveMsg)) (Some hop)
          else
            match referral (Authorities receiveMsg) with
            | [] => Return (Err ErrNotFound) (Some hop)
            | nsList => Continue hop nsList
            end
        | Failure e =>
          Return (Err e) (Some (mkHop depth serverList race (Some conn) None))
        end
      | Err e =>
        let conn := conn_Close conn in
        Return (Err e) (Some (mkHop depth serverList race (Some conn) None))
      | o =>
        Return (fail_as o) (Some (mkHop depth serverList race (Some conn) None))
      end
    | (o, race) =>
      Return (fail_as o) (Some (mkHop depth serverList race None None))
    end.

(** The loop.  It has no bound of its own in the source, so the model
    takes a step budget [fuel], one unit for each turn; [Fuel] is the
    result of a run that needs more turns. *)
Fixpoint referral_loop (cd : Codec) (w : World) (send : list byte)
         (fuel : nat) (depth : Z) (serverList : list string)
  : outcome (list Resource) * list Hop :=
  match fuel with
  | O => (Fuel, [])
  | S fuel =>
    match loop_body cd w send depth serverList with
    | Return r None => (r, [])
    | Return r (Some hop) => (r, [hop])
    | Continue hop nsList =>
      let (r, hops) := referral_loop cd w send fuel (depth + 1) nsList in
      (r, hop :: hops)
    end
  end.

(** A call of the engine: its result, the value of [gLookupId] after
    it, the message it built, if it came that far, and the hops. *)
Record Run (A : Type) : Type := mkRun {
  result : outcome A;
  lookupId : Z;
  query : option Message;
  hops : list Hop
}.

Arguments mkRun {A} result lookupId query hops.
Arguments result {A} r.
Arguments lookupId {A} r.
Arguments query {A} r.
Arguments hops {A} r.

(** [atomic.AddUint32(&gLookupId, 1)]: the new value. *)
Definition AddUint32 (addr delta : Z) : Z := uint32 (addr + delta).

(** The step budget of a call: twelve turns, eleven that may dial and
    the one that finds [depth > 10]. *)
Definition budget : nat := 12.

Definition lookupResourceListL1 (cd : Codec) (w : World) (gLookupId : Z)
           (domain : string) (typeC : RType) : Run (list Resource) :=
  let domain :=
    if negb (HasSuffix domain ".") then (domain ++ ".")%string else domain in
  match NewName cd domain with
  | Success name =>
    let gLookupId := AddUint32 gLookupId 1 in
    let msg :=
      mkMessage
        (mkHeader (uint16 gLookupId) false 0 false false false false 0)
        [mkQuestion name typeC ClassINET]
        [] [] [] in
    match Pack cd msg with
    | Success send =>
      let (r, hops) := referral_loop cd w send budget 0 gRootServers in
      mkRun r gLookupId (Some msg) hops
    | Failure e => mkRun (Err e) gLookupId (Some msg) []
    end
  | Failure e => mkRun (Err e) gLookupId None []
  end.

(** ** The projections (lines 21-140) *)

(** The end of a projection: the trace of the engine with another
    result. *)
Definition returns {A B} (r : Run A) (o : outcome B) : Run B :=
  mkRun o (lookupId r) (query r) (hops r).

(** [net.IPv4(a, b, c, d).String()]. *)
Definition IPv4_String (a : byte * byte * byte * byte) : string :=
  let '(a0, a1, a2, a3) := a in
  (itoa a0 ++ "." ++ itoa a1 ++ "." ++ itoa a2 ++ "." ++ itoa a3)%string.

Definition LookupA (cd : Codec) (w : World) (gLookupId : Z) (domain : string)
  : Run (list string) :=
  let r := lookupResourceListL1 cd w gLookupId domain TypeA in
  match result r with
  | Ok answerList =>
    let aResourceList :=
      fold_left
        (fun l answer =>
           match Body answer with
           | AResource a => l ++ [IPv4_String a]
           | _ => l
           end) answerList [] in
    if (length aResourceList =? 0)%nat
    then returns r (Err ErrNotFound)
    else returns r (Ok aResourceList)
  | o => returns r (fail_as o)
  end.

Definition LookupSOA (cd : Codec) (w : World) (gLookupId : Z)
           (domain : string) : Run (list string) :=
  let r := lookupResourceListL1 cd w gLookupId domain TypeSOA in
  match result r with
  | Ok answerList =>
    let soaResourceList :=
      fold_left
        (fun l answer =>
           match Body answer with
           | SOAResource ns _ _ _ _ _ _ =>
             l ++ [TrimSuffix (Name_String ns) "."]
           | _ => l
           end) answerList [] in
    if (length soaResourceList =? 0)%nat
    then returns r (Err ErrNotFound)
    else returns r (Ok soaResourceList)
  | o => returns r (fail_as o)
  end.

Definition LookupNS (cd : Codec) (w : World) (gLookupId : Z)
           (domain : string) : Run (list string) :=
  let r := lookupResourceListL1 cd w gLookupId domain TypeNS in
  match result r with
  | Ok answerList =>
    let nsResourceList :=
      fold_left
        (fun l answer =>
           match Body answer with
           | NSResource ns => l ++ [TrimSuffix (Name_String ns) "."]
           | _ => l
           end) answerList [] in
    if (length nsResourceList =? 0)%nat
    then returns r (Err ErrNotFound)
    else returns r (Ok nsResourceList)
  | o => returns r (fail_as o)
  end.

Definition LookupTXT (cd : Codec) (w : World) (gLookupId : Z)
           (domain : string) : Run (list string) :=
  let r := lookupResourceListL1 cd w gLookupId domain TypeTXT in
  match result r with
  | Ok answerList =>
    let txtResourceList :=
      fold_left
        (fun l answer =>
           match Body answer with
           | TXTResource txt => l ++ txt
           | _ => l
           end) answerList [] in
    if (length txtResourceList =? 0)%nat
    then returns r (Err ErrNotFound)
    else returns r (Ok txtResourceList)
  | o => returns r (fail_as o)
  end.

(** The loop of [LookupCNAME]; it stops at the first name that is not
    empty. *)
Fixpoint cname_loop (answerList : list Resource) (cname : string) : string :=
  match answerList with
  | [] => cname
  | answer :: rest =>
    match Body answer with
    | CNAMEResource n =>
      let cname := Name_String n in
      if negb (cname =? "")%string then cname else cname_loop rest cname
    | _ => cname_loop rest cname
    end
  end.

Definition LookupCNAME (cd : Codec) (w : World) (gLookupId : Z)
           (domain : string) : Run string :=
  let r := lookupResourceListL1 cd w gLookupId domain TypeTXT in
  match result r with
  | Ok answerList =>
    let cname := cname_loop answerList "" in
    if (cname =? "")%string
    then returns r (Err ErrNotFound)
    else returns r (Ok cname)
  | o => returns r (fail_as o)
  end.

(** [net.MX]. *)
Record MX : Type := mkMX { Host : string; MXPref : Z }.

(** The [less] function given to [sort.Slice], on the elements. *)
Definition mx_less (a b : MX) : bool :=
  if negb (MXPref a =? MXPref b) then MXPref a >? MXPref b
  else (Host a <? Host b)%string.

(** [sort.Slice].  The library sorts a short slice by insertion, each
    element moved down while it is less than the one before it; [sink]
    is that inner loop, on the part before the element, nearest first.
    For an order such as [mx_less], where two distinct elements are
    never equivalent, every sorting algorithm gives the same slice
    ([mx_sorted_unique]). *)
Fixpoint sink {A} (less : A -> A -> bool) (x : A) (before : list A) : list A :=
  match before with
  | y :: rest => if less x y then y :: sink less x rest else x :: before
  | [] => [x]
  end.

Definition sort_Slice {A} (less : A -> A -> bool) (l : list A) : list A :=
  rev (fold_left (fun before x => sink less x before) l []).

Definition LookupMX (cd : Codec) (w : World) (gLookupId : Z)
           (domain : string) : Run (list MX) :=
  let r := lookupResourceListL1 cd w gLookupId domain TypeMX in
  match result r with
  | Ok answerList =>
    let mxResourceList :=
      fold_left
        (fun l answer =>
           match Body answer with
           | MXResource pref mx => l ++ [mkMX (Name_String mx) pref]
           | _ => l
           end) answerList [] in
    if (length mxResourceList =? 0)%nat
    then returns r (Err ErrNotFound)
    else returns r (Ok (sort_Slice mx_less mxResourceList))
  | o => returns r (fail_as o)
  end.

(** ** A codec and two networks to run the model on *)

(** A small codec.  [NewName] has the length test of the library; a
    packed query is its identifier and the bytes of the name; a reply is
    decoded by its first byte: a referral to [ns.loop.], an address, a
    message with empty sections, three MX records, or two CNAME
    records. *)
Definition demo_answer : Resource :=
  mkResource (mkName "example.com.") 300 (AResource (x5d, xb8, xd8, x22)).

Definition demo_mail : list Resource :=
  [ mkResource (mkName "example.com.") 300 (MXResource 10 (mkName "a"));
    mkResource (mkName "example.com.") 300 (MXResource 20 (mkName "b"));
    mkResource (mkName "example.com.") 300 (MXResource 20 (mkName "c")) ].

Definition demo_alias : list Resource :=
  [ mkResource (mkName "example.com.") 300 (CNAMEResource (mkName ""));
    mkResource (mkName "example.com.") 300
               (CNAMEResource (mkName "alias.example.com.")) ].

Definition demo_referral : Message :=
  mkMessage (mkHeader 0 true 0 false false false false 0) [] []
            [mkResource (mkName "loop.") 300 (NSResource (mkName "ns.loop."))]
            [].

Definition demo_codec : Codec :=
  mkCodec
    (fun s => if (255 <? String.length s)%nat
              then Failure (ErrCodec "name too long") else Success (mkName s))
    (fun m =>
       Success (byte_of_Z (Z.shiftr (ID (MHeader m)) 8) :: byte_of_Z (ID (MHeader m))
           :: flat_map (fun q => list_byte_of_string (Name_String (QName q)))
                       (Questions m)))
    (fun b =>
       let h := mkHeader 0 true 0 false false false false 0 in
       match b with
       | x00 :: _ => Success demo_referral
       | x01 :: _ => Success (mkMessage h [] [demo_answer] [] [])
       | x02 :: _ => Success (mkMessage h [] [] [] [])
       | x03 :: _ => Success (mkMessage h [] demo_mail [] [])
       | x04 :: _ => Success (mkMessage h [] demo_alias [] [])
       | _ => Failure (ErrCodec "unpack")
       end).

(** A server that answers every query with the given payload, framed. *)
Definition server (addr : string) (payload : list byte) : Conn :=
  mkConn addr (fun _ => frame payload) [] [] false false.

(** Every address is reachable and every server refers the client to
    [ns.loop.]: a delegation that never ends. *)
Definition loop_world : World :=
  mkWorld (fun _ _ addr => Connected (server addr [x00])) (fun _ => []).

(** The root servers refer to [ns.loop.], which answers. *)
Definition answer_world : World :=
  mkWorld (fun depth _ addr =>
             Connected (server addr [if depth =? 0 then x00 else x01]))
          (fun _ => [3%nat; 1%nat]).

(** The root servers answer themselves, with the given payload. *)
Definition root_world (payload : list byte) : World :=
  mkWorld (fun _ _ addr => Connected (server addr payload)) (fun _ => []).

(** Every server sends a reply that announces 65535 bytes. *)
Definition wrap_world : World :=
  mkWorld (fun _ _ addr =>
             Connected (mkConn addr (fun _ => [xff; xff; x0a])
                               [] [] false false))
          (fun _ => []).

(** No address can be reached. *)
Definition dead_world : World :=
  mkWorld (fun _ _ addr => Refused (ErrDial addr)) (fun _ => [5%nat]).

(** ** The command (package main, [init] and [root.Run])

    What the command does is its trace: the calls of [fmt.Println] with
    their arguments, [os.Exit], [cmd.Help], and a crash on a panic of the
    package.  [strings.ToUpper] is a parameter.  The lookup of the
    domain at position [i] of the arguments runs on the network
    [net i]. *)

Inductive value : Type :=
| VString (s : string)
| VInt (n : Z)
| VError (e : error).

Inductive event : Type :=
| Println (args : list value)
| Exit (code : Z)
| Help
| Crash (msg : string).

(** [for idx, value := range valueList { fmt.Println(idx+1, value) }],
    from the index [idx] on. *)
Fixpoint print_values (idx : Z) (valueList : list string) : list event :=
  match valueList with
  | [] => []
  | value :: rest =>
    Println [VInt (idx + 1); VString value] :: print_values (idx + 1) rest
  end.

(** The same loop on the result of [LookupMX]. *)
Fixpoint print_mx (idx : Z) (valueList : list MX) : list event :=
  match valueList with
  | [] => []
  | value :: rest =>
    Println [VInt (idx + 1); VString "优先级"; VInt (MXPref value);
             VString "主机"; VString (Host value)]
      :: print_mx (idx + 1) rest
  end.

(** The [switch] that chooses [fn]; [None] is the nil function. *)
Definition select_fn (lookupType : string)
  : option (Codec -> World -> Z -> string -> Run (list string)) :=
  if (lookupType =? "A")%string then Some LookupA
  else if (lookupType =? "SOA")%string then Some LookupSOA
  else if (lookupType =? "NS")%string then Some LookupNS
  else if (lookupType =? "TXT")%string then Some LookupTXT
  else None.

(** What a panic of the package makes of the process. *)
Definition crash {A} (o : outcome A) : event :=
  match o with
  | Panic m => Crash m
  | _ => Crash "unreachable"
  end.

(** The loop [for _, domain := range args]: the trace, and the value of
    [gLookupId] at the end.  [lookupType] is the variable of the flag,
    which the loop overwrites. *)
Fixpoint cli_loop (cd : Codec) (ToUpper : string -> string)
         (net : nat -> World) (i : nat) (lookupType : string) (g : Z)
         (args : list string) : list event * Z :=
  match args with
  | [] => ([], g)
  | domain :: rest =>
    let header :=
      Println [VString "查询"; VString domain; VString "的";
               VString lookupType; VString "记录"] in
    let lookupType := ToUpper lookupType in
    match select_fn lookupType with
    | Some fn =>
      let r := fn cd (net i) g domain in
      match result r with
      | Err err =>
        let (evs, g') :=
          cli_loop cd ToUpper net (S i) lookupType (lookupId r) rest in
        (header :: Println [VString "查询出错"; VError err] :: evs, g')
      | Ok valueList =>
        let (evs, g') :=
          cli_loop cd ToUpper net (S i) lookupType (lookupId r) rest in
        (header
           :: Println [VString "查询到"; VInt (Z.of_nat (length valueList));
                       VString "条"; VString lookupType; VString "记录"]
           :: print_values 0 valueList ++ evs, g')
      | o => ([header; crash o], lookupId r)
      end
    | None =>
      if (lookupType =? "CNAME")%string then
        let r := LookupCNAME cd (net i) g domain in
        match result r with
        | Err err =>
          ([header; Println [VString "查询出错"; VError err]; Exit (-1)],
           lookupId r)
        | Ok cname =>
          let (evs, g') :=
            cli_loop cd ToUpper net (S i) lookupType (lookupId r) rest in
          (header :: Println [VString "查询到 CNAME 记录"; VString cname]
                  :: evs, g')
        | o => ([header; crash o], lookupId r)
        end
      else if (lookupType =? "MX")%string then
        let r := LookupMX cd (net i) g domain in
        match result r with
        | Err err =>
          let (evs, g') :=
            cli_loop cd ToUpper net (S i) lookupType (lookupId r) rest in
          (header :: Println [VString "查询出错"; VError err] :: evs, g')
        | Ok valueList =>
          let (evs, g') :=
            cli_loop cd ToUpper net (S i) lookupType (lookupId r) rest in
          (header
             :: Println [VString "查询到"; VInt (Z.of_nat (length valueList));
                         VString "条 MX 记录"]
             :: print_mx 0 valueList ++ evs, g')
        | o => ([header; crash o], lookupId r)
        end
      else ([header; Help], g)
    end
  end.

(** [root.Run], with the value of the flag [--type] and the positional
    arguments. *)
Definition cli_run (cd : Codec) (ToUpper : string -> string)
           (net : nat -> World) (lookupType : string) (g : Z)
           (args : list string) : list event * Z :=
  if Z.of_nat (length args) <? 1
  then ([Println [VString "nslookup 需要输入要查询的域名"]; Exit (-1)], g)
  else cli_loop cd ToUpper net 0 lookupType g args.

(** [strings.ToUpper] on strings of ASCII characters. *)
Definition ascii_upper (c : ascii) : ascii :=
  let n := nat_of_ascii c in
  if ((97 <=? n) && (n <=? 122))%nat then ascii_of_nat (n - 32) else c.

Fixpoint ascii_ToUpper (s : string) : string :=
  match s with
  | EmptyString => EmptyString
  | String c rest => String (ascii_upper c) (ascii_ToUpper rest)
  end.

(** ** Notions the statements below use *)

(** The reading half of an exchange: two bytes of length [n], then [n]
    bytes.  The slice expression [temp[2:2+n]] panics when its end,
    computed in 16 bits, wraps around below 2. *)
Definition read_reply (c : Conn) : outcome (list byte) * Conn :=
  match io_ReadFull c 2 with
  | (Ok hdr, c) =>
    match Uint16 hdr with
    | Ok n =>
      if uint16 (2 + n) <? 2 then (Panic "slice bounds out of range", c)
      else io_ReadFull c (Z.to_nat n)
    | o => (fail_as o, c)
    end
  | (o, c) => (fail_as o, c)
  end.

(** The exchange of a payload of [len] bytes with a peer that sends
    back what it receives. *)
Definition echo_of (len : Z) : outcome (list byte) :=
  fst (exchangePacket loopback (repeat x01 (Z.to_nat len))).

(** The names of the NS records of a section, in order. *)
Definition ns_targets (section : list Resource) : list string :=
  flat_map (fun one => match Body one with
                       | NSResource ns => [Name_String ns]
                       | _ => []
                       end) section.

(** A host name with the default DNS port. *)
Definition with_port (host : string) : string :=
  (TrimSuffix host "." ++ ":53")%string.

(** A hop whose reply is a referral: no answer, and at least one NS
    record in the authority section. *)
Definition is_referral (h : Hop) : bool :=
  match hop_reply h with
  | Some m =>
    (length (Answers m) =? 0)%nat
    && negb (length (ns_targets (Authorities m)) =? 0)%nat
  | None => false
  end.

(** The hops of a run that starts at a depth with a server list: each
    hop is at a depth of at most 10 and dials the current server list;
    a hop that is followed by another one got a referral, and the next
    hop is one deeper, on the server list of that referral. *)
Inductive chain : Z -> list string -> list Hop -> Prop :=
| chain_nil depth serverList : chain depth serverList []
| chain_last depth serverList h :
    depth <= 10 -> hop_depth h = depth -> hop_servers h = serverList ->
    chain depth serverList [h]
| chain_cons depth serverList h m hs :
    depth <= 10 -> hop_depth h = depth -> hop_servers h = serverList ->
    hop_reply h = Some m -> Answers m = [] ->
    ns_targets (Authorities m) <> [] ->
    chain (depth + 1) (map with_port (ns_targets (Authorities m))) hs ->
    chain depth serverList (h :: hs).

(** The projections of an answer list, record by record. *)
Definition a_records (answerList : list Resource) : list string :=
  flat_map (fun answer => match Body answer with
                          | AResource a => [IPv4_String a]
                          | _ => []
                          end) answerList.

Definition soa_records (answerList : list Resource) : list string :=
  flat_map (fun answer => match Body answer with
                          | SOAResource ns _ _ _ _ _ _ =>
                            [TrimSuffix (Name_String ns) "."]
                          | _ => []
                          end) answerList.

Definition ns_records (answerList : list Resource) : list string :=
  flat_map (fun answer => match Body answer with
                          | NSResource ns => [TrimSuffix (Name_String ns) "."]
                          | _ => []
                          end) answerList.

Definition txt_records (answerList : list Resource) : list string :=
  flat_map (fun answer => match Body answer with
                          | TXTResource txt => txt
                          | _ => []
                          end) answerList.

(** The MX records of an answer list, in order. *)
Definition mx_records (answerList : list Resource) : list MX :=
  flat_map (fun answer => match Body answer with
                          | MXResource pref mx => [mkMX (Name_String mx) pref]
                          | _ => []
                          end) answerList.

(** The order of the result of [LookupMX]: the higher preference first,
    and for equal preferences the host names in ascending order. *)
Definition mx_ord (a b : MX) : Prop :=
  MXPref b < MXPref a
  \/ (MXPref a = MXPref b /\ (Host a <=? Host b)%string = true).

(** The names of the CNAME records of an answer list, in order. *)
Definition cname_records (answerList : list Resource) : list string :=
  flat_map (fun answer => match Body answer with
                          | CNAMEResource n => [Name_String n]
                          | _ => []
                          end) answerList.

(** A name that is not the empty string. *)
Definition named (n : string) : bool := negb (n =? "")%string.

(** The absolute form of a domain name: with a dot at its end. *)
Definition absolute (domain : string) : string :=
  if HasSuffix domain "." then domain else (domain ++ ".")%string.

(** The message of a query for a name, with an identifier. *)
Definition query_for (id : Z) (name : Name) (typeC : RType) : Message :=
  mkMessage (mkHeader id false 0 false false false false 0)
            [mkQuestion name typeC ClassINET] [] [] [].

(** The calls of a process, one after the other: each starts from the
    value of [gLookupId] the one before it left. *)
Fixpoint session (cd : Codec) (calls : list (World * string * RType))
         (gLookupId : Z) : list (Run (list Resource)) :=
  match calls with
  | [] => []
  | (w, domain, typeC) :: rest =>
    let r := lookupResourceListL1 cd w gLookupId domain typeC in
    r :: session cd rest (lookupId r)
  end.

(** The identifiers of the queries a session built, in order. *)
Definition query_ids (runs : list (Run (list Resource))) : list Z :=
  flat_map (fun r => match query r with
                     | Some m => [ID (MHeader m)]
                     | None => []
                     end) runs.

(** The connection of a hop as the turn leaves it: after the exchange
    of the packed query, and closed when the exchange returned. *)
Definition exchanged (c0 : Conn) (send : list byte) : Conn :=
  match fst (exchangePacket c0 send) with
  | Ok _ | Err _ => conn_Close (snd (exchangePacket c0 send))
  | _ => snd (exchangePacket c0 send)
  end.

(** What the goroutines of a race got, in the order in which they took
    the mutex. *)
Definition dial_results (dial : nat -> string -> DialOutcome)
           (choices : list nat) (targetAddrList : list string)
  : list DialOutcome :=
  map (fun t => dial (fst t) (snd t))
      (lock_order choices (spawn_all targetAddrList)).

(** The connections among the results of a race, in order. *)
Definition connections (rs : list DialOutcome) : list Conn :=
  flat_map (fun r => match r with Connected c => [c] | Refused _ => [] end) rs.

(** The errors among the results of a race, in order. *)
Definition refusals (rs : list DialOutcome) : list error :=
  flat_map (fun r => match r with Connected _ => [] | Refused e => [e] end) rs.

(** The line the command prints before the lookup of a domain. *)
Definition header_of (domain lookupType : string) : event :=
  Println [VString "查询"; VString domain; VString "的";
           VString lookupType; VString "记录"].

(** The lines of that form in a trace, in order: the domain and the
    type each one shows. *)
Definition announced (evs : list event) : list (string * string) :=
  flat_map (fun ev => match ev with
                      | Println [VString "查询"; VString domain; VString "的";
                                 VString lookupType; VString "记录"] =>
                        [(domain, lookupType)]
                      | _ => []
                      end) evs.

(** A codec like [demo_codec] whose replies hold the three MX records,
    in one order or in the other. *)
Definition mail_codec : Codec :=
  mkCodec (NewName demo_codec) (Pack demo_codec)
          (fun b =>
             let h := mkHeader 0 true 0 false false false false 0 in
             match b with
             | x00 :: _ => Success (mkMessage h [] demo_mail [] [])
             | _ => Success (mkMessage h [] (rev demo_mail) [] [])
             end).

(** * Properties *)

(** ** Bytes and slices *)

Lemma Z_of_byte_of_Z (z : Z) : Z_of_byte (byte_of_Z z) = z mod 256.
Proof.
  unfold Z_of_byte, byte_of_Z.
  assert (Hr : 0 <= z mod 256 < 256) by (apply Z.mod_pos_bound; lia).
  destruct (Byte.of_N (Z.to_N (z mod 256))) as [b|] eqn:E.
  - apply Byte.to_of_N in E. rewrite E. lia.
  - apply Byte.of_N_None_iff in E. lia.
Qed.

Lemma Z_of_byte_range (b : byte) : 0 <= Z_of_byte b < 256.
Proof.
  unfold Z_of_byte. pose proof (Byte.to_N_bounded b). lia.
Qed.

Lemma byte_of_Z_of_byte (b : byte) : byte_of_Z (Z_of_byte b) = b.
Proof.
  unfold byte_of_Z. pose proof (Z_of_byte_range b) as Hr.
  rewrite Z.mod_small by lia. unfold Z_of_byte.
  rewrite N2Z.id, Byte.of_to_N. reflexivity.
Qed.

Lemma lor_low_high (lo hi : Z) :
  0 <= lo < 256 -> Z.lor lo (Z.shiftl hi 8) = 256 * hi + lo.
Proof.
  intros Hlo. rewrite Z.shiftl_mul_pow2 by lia. change (2 ^ 8) with 256.
  assert (Hd : Z.land lo (hi * 256) = 0).
  { apply Z.bits_inj'. intros n Hn. rewrite Z.land_spec, Z.bits_0.
    destruct (Z.ltb_spec n 8).
    - change 256 with (2 ^ 8). rewrite Z.mul_pow2_bits_low by lia.
      apply andb_false_r.
    - replace lo with (lo mod 2 ^ 8)
        by (apply Z.mod_small; change (2 ^ 8) with 256; lia).
      rewrite Z.mod_pow2_bits_high by lia. reflexivity. }
  rewrite <- Z.lxor_lor, <- Z.add_nocarry_lxor by exact Hd. lia.
Qed.

(** Two bytes, high byte first, hold a number below 65536. *)
Lemma be16_decode (v : Z) :
  0 <= v < 65536 ->
  Z.lor (Z_of_byte (byte_of_Z v))
        (Z.shiftl (Z_of_byte (byte_of_Z (Z.shiftr v 8))) 8) = v.
Proof.
  intros Hv. rewrite lor_low_high by apply Z_of_byte_range.
  rewrite !Z_of_byte_of_Z, Z.shiftr_div_pow2 by lia.
  change (2 ^ 8) with 256.
  assert (Hq : 0 <= v / 256 < 256).
  { split; [apply Z.div_pos; lia | apply Z.div_lt_upper_bound; lia]. }
  rewrite (Z.mod_small (v / 256)) by lia.
  pose proof (Z.div_mod v 256). lia.
Qed.

Lemma be16_value (b0 b1 : byte) :
  Z.lor (Z_of_byte b1) (Z.shiftl (Z_of_byte b0) 8)
  = 256 * Z_of_byte b0 + Z_of_byte b1.
Proof. apply lor_low_high, Z_of_byte_range. Qed.

Lemma copy_fits (dst src : list byte) :
  (length src <= length dst)%nat ->
  copy dst src = src ++ skipn (length src) dst.
Proof.
  intros H. unfold copy. rewrite Nat.min_r by lia.
  rewrite firstn_all. reflexivity.
Qed.

Lemma copy_length (dst src : list byte) : length (copy dst src) = length dst.
Proof.
  unfold copy. rewrite length_app, length_firstn, length_skipn. lia.
Qed.

Lemma slice_prefix (a b : list byte) : slice (a ++ b) 0 (length a) = Ok a.
Proof.
  unfold slice. rewrite length_app.
  replace ((0 <=? length a)%nat && (length a <=? length a + length b)%nat)
    with true
    by (symmetry; apply andb_true_intro; split; apply Nat.leb_le; lia).
  rewrite Nat.sub_0_r. cbn [skipn].
  rewrite firstn_app, Nat.sub_diag, firstn_all. cbn [firstn].
  apply f_equal, app_nil_r.
Qed.

Lemma slice_middle (a b c : list byte) :
  slice (a ++ b ++ c) (length a) (length a + length b) = Ok b.
Proof.
  unfold slice. rewrite !length_app.
  replace ((length a <=? length a + length b)%nat
           && (length a + length b <=? length a + (length b + length c))%nat)
    with true
    by (symmetry; apply andb_true_intro; split; apply Nat.leb_le; lia).
  replace (length a + length b - length a)%nat with (length b) by lia.
  rewrite skipn_app, skipn_all, Nat.sub_diag. cbn [skipn app].
  rewrite firstn_app, Nat.sub_diag, firstn_all. cbn [firstn].
  apply f_equal, app_nil_r.
Qed.

Lemma slice_beyond (b : list byte) (lo hi : nat) :
  (length b < hi)%nat -> slice b lo hi = Panic "slice bounds out of range".
Proof.
  intros H. unfold slice.
  replace (hi <=? length b)%nat with false
    by (symmetry; apply Nat.leb_gt; exact H).
  rewrite andb_false_r. reflexivity.
Qed.

Lemma slice_inverted (b : list byte) (lo hi : nat) :
  (hi < lo)%nat -> slice b lo hi = Panic "slice bounds out of range".
Proof.
  intros H. unfold slice.
  replace (lo <=? hi)%nat with false by (symmetry; apply Nat.leb_gt; exact H).
  reflexivity.
Qed.

Lemma io_ReadFull_ok (c c' : Conn) (n : nat) (bs : list byte) :
  io_ReadFull c n = (Ok bs, c') ->
  length bs = n /\ unread c = bs ++ unread c'.
Proof.
  unfold io_ReadFull. destruct (Nat.leb_spec n (length (unread c))) as [H|H].
  - intros E. inversion E; subst; clear E. cbn [unread].
    rewrite firstn_skipn. split; [apply firstn_length_le; exact H | reflexivity].
  - intros E. discriminate E.
Qed.

(** ** The transport: what [exchangePacket] does with its buffer *)

(** The buffer of [exchangePacket] after [PutUint16] and [copy], for a
    payload that fits: the frame, and the rest of the buffer. *)
Lemma temp_after_copy (temp : list byte) (send : list byte) :
  length temp = Z.to_nat (2 + MaxUint16) ->
  Z.of_nat (length send) <= MaxUint16 ->
  exists rest,
    PutUint16 temp (uint16 (Z.of_nat (length send)))
    = Ok (byte_of_Z (Z.shiftr (Z.of_nat (length send)) 8)
            :: byte_of_Z (Z.of_nat (length send)) :: rest)
    /\ length rest = Z.to_nat MaxUint16.
Proof.
  intros Hlen Hs. unfold MaxUint16 in *.
  destruct temp as [|t0 [|t1 rest]]; cbn [length] in Hlen; try lia.
  exists rest. split; [|lia].
  unfold PutUint16, uint16. cbn [length Nat.leb set_nth].
  rewrite Z.mod_small by lia. reflexivity.
Qed.

(** For a payload of at most 65535 bytes, an exchange is one [Write] of
    the frame and then the reading of a reply. *)
Lemma exchangePacket_fits (c : Conn) (send : list byte) :
  Z.of_nat (length send) <= MaxUint16 ->
  exchangePacket c send =
  match conn_Write c (frame send) with
  | (Some e, c) => (Err e, c)
  | (None, c) => read_reply c
  end.
Proof.
  intros Hs. unfold exchangePacket.
  destruct (temp_after_copy (repeat x00 (Z.to_nat (2 + MaxUint16))) send)
    as (rest & -> & Hrest); [apply repeat_length | exact Hs |].
  unfold MaxUint16 in Hrest, Hs.
  assert (Hc : copy_at 2 (byte_of_Z (Z.shiftr (Z.of_nat (length send)) 8)
                            :: byte_of_Z (Z.of_nat (length send)) :: rest) send
               = frame send ++ skipn (length send) rest).
  { unfold copy_at. cbn [firstn skipn app].
    rewrite copy_fits by lia. reflexivity. }
  cbv zeta. rewrite Hc. clear Hc.
  change (2 + length send)%nat with (length (frame send)).
  rewrite slice_prefix.
  set (temp := frame send ++ skipn (length send) rest).
  assert (Htemp : length temp = Z.to_nat 65537).
  { unfold temp, frame. rewrite length_app, length_skipn.
    cbn [length]. lia. }
  clearbody temp.
  destruct (conn_Write c (frame send)) as [[e|] c1]; [reflexivity|].
  unfold read_reply.
  destruct (io_ReadFull c1 2) as [[hdr|e|m|] c2] eqn:E2; try reflexivity.
  apply io_ReadFull_ok in E2. destruct E2 as [Hh _].
  destruct hdr as [|h0 [|h1 [|? ?]]]; cbn [length] in Hh; try lia.
  unfold copy_at at 2. cbn [firstn skipn app].
  rewrite copy_fits by (cbn [length]; lia).
  cbn [length app Uint16].
  set (n := Z.lor (Z_of_byte h1) (Z.shiftl (Z_of_byte h0) 8)).
  assert (Hn : 0 <= n < 65536).
  { unfold n. rewrite be16_value.
    pose proof (Z_of_byte_range h0). pose proof (Z_of_byte_range h1). lia. }
  destruct temp as [|u0 [|u1 tail]]; cbn [length] in Htemp; try lia.
  rewrite ?(copy_fits (u0 :: u1 :: tail) [h0; h1]) by (cbn [length]; lia).
  cbn [length skipn app].
  destruct (Z.ltb_spec (uint16 (2 + n)) 2) as [Hw|Hw].
  - rewrite slice_inverted; [reflexivity|].
    pose proof (Z.mod_pos_bound (2 + n) 65536). unfold uint16 in *. lia.
  - assert (Hhi : Z.to_nat (uint16 (2 + n)) = (2 + Z.to_nat n)%nat).
    { unfold uint16 in *.
      destruct (Z.lt_ge_cases (2 + n) 65536) as [Hlt|Hge].
      - rewrite Z.mod_small by lia. lia.
      - exfalso. assert (E : (2 + n) mod 65536 = 2 + n - 65536).
        { symmetry. apply Z.mod_unique with 1; lia. }
        lia. }
    rewrite Hhi.
    assert (Hbuf : slice (h0 :: h1 :: tail) 2 (2 + Z.to_nat n)
                   = Ok (firstn (Z.to_nat n) tail)).
    { unfold slice. cbn [length skipn].
      replace ((2 <=? 2 + Z.to_nat n)%nat
               && (2 + Z.to_nat n <=? S (S (length tail)))%nat) with true
        by (symmetry; apply andb_true_intro; split; apply Nat.leb_le; lia).
      replace (2 + Z.to_nat n - 2)%nat with (Z.to_nat n) by lia.
      reflexivity. }
    rewrite Hbuf, firstn_length_le by lia.
    destruct (io_ReadFull c2 (Z.to_nat n)) as [[body|e|m|] c3] eqn:E3;
      try reflexivity.
    apply io_ReadFull_ok in E3. destruct E3 as [Hb _].
    unfold copy_at. cbn [firstn skipn app].
    rewrite copy_fits by lia.
    change (h0 :: h1 :: body ++ skipn (length body) tail)
      with ([h0; h1] ++ body ++ skipn (length body) tail).
    rewrite <- Hb. change 2%nat with (length [h0; h1]).
    rewrite slice_middle. reflexivity.
Qed.

Lemma set_nth_length (i : nat) (x : byte) (b : list byte) :
  length (set_nth i x b) = length b.
Proof.
  revert i. induction b as [|h t IH]; intros [|j]; cbn; auto.
Qed.

Lemma copy_at_length (lo : nat) (b src : list byte) :
  length (copy_at lo b src) = length b.
Proof.
  unfold copy_at.
  rewrite length_app, copy_length, length_firstn, length_skipn. lia.
Qed.

Lemma io_ReadFull_wlog (c : Conn) (n : nat) :
  wlog (snd (io_ReadFull c n)) = wlog c.
Proof.
  unfold io_ReadFull. destruct (n <=? length (unread c))%nat; reflexivity.
Qed.

Lemma read_reply_wlog (c : Conn) : wlog (snd (read_reply c)) = wlog c.
Proof.
  unfold read_reply. pose proof (io_ReadFull_wlog c 2) as H2.
  destruct (io_ReadFull c 2) as [[hdr|e|m|] c2]; cbn [snd] in *; auto.
  destruct (Uint16 hdr) as [n|e|m|]; cbn [snd]; auto.
  destruct (uint16 (2 + n) <? 2); cbn [snd]; auto.
  rewrite io_ReadFull_wlog. exact H2.
Qed.

(** The reading half on a stream that ends before the two bytes of the
    length: a failure. *)
Lemma read_reply_short_header (c : Conn) :
  (length (unread c) < 2)%nat -> exists e, fst (read_reply c) = Err e.
Proof.
  intros H. unfold read_reply, io_ReadFull.
  replace (2 <=? length (unread c))%nat with false
    by (symmetry; apply Nat.leb_gt; exact H).
  eexists. reflexivity.
Qed.

(** The reading half on a stream that holds the two bytes of a length
    [n] of at most 65533: the next [n] bytes and no more, or a failure
    when fewer are there. *)
Lemma read_reply_stream (c : Conn) (b0 b1 : byte) (rest : list byte) :
  unread c = b0 :: b1 :: rest ->
  256 * Z_of_byte b0 + Z_of_byte b1 <= 65533 ->
  let n := Z.to_nat (256 * Z_of_byte b0 + Z_of_byte b1) in
  ((n <= length rest)%nat ->
   fst (read_reply c) = Ok (firstn n rest)
   /\ unread (snd (read_reply c)) = skipn n rest)
  /\ ((length rest < n)%nat -> exists e, fst (read_reply c) = Err e).
Proof.
  intros Hu Hsmall n. unfold read_reply, io_ReadFull. rewrite Hu.
  cbn [length Nat.leb firstn skipn unread remote peer wlog wbroken closed Uint16].
  rewrite be16_value.
  pose proof (Z_of_byte_range b0). pose proof (Z_of_byte_range b1).
  replace (uint16 (2 + (256 * Z_of_byte b0 + Z_of_byte b1)) <? 2) with false
    by (symmetry; apply Z.ltb_ge; unfold uint16;
        rewrite Z.mod_small by lia; lia).
  fold n.
  destruct (Nat.leb_spec n (length rest)) as [H'|H']; split; intros H''.
  - split; reflexivity.
  - lia.
  - lia.
  - eexists. reflexivity.
Qed.

(** The reading half on a stream that holds the two bytes of the length
    65534 or 65535: the end of the slice wraps around to 0 or 1, and
    the slice expression panics. *)
Lemma read_reply_wraps (c : Conn) (b0 b1 : byte) (rest : list byte) :
  unread c = b0 :: b1 :: rest ->
  65534 <= 256 * Z_of_byte b0 + Z_of_byte b1 ->
  fst (read_reply c) = Panic "slice bounds out of range".
Proof.
  intros Hu Hbig. unfold read_reply, io_ReadFull. rewrite Hu.
  cbn [length Nat.leb firstn skipn unread remote peer wlog wbroken closed Uint16].
  rewrite be16_value.
  pose proof (Z_of_byte_range b0). pose proof (Z_of_byte_range b1).
  replace (uint16 (2 + (256 * Z_of_byte b0 + Z_of_byte b1)) <? 2) with true;
    [reflexivity|].
  symmetry. apply Z.ltb_lt. unfold uint16.
  assert (E : (2 + (256 * Z_of_byte b0 + Z_of_byte b1)) mod 65536
              = 2 + (256 * Z_of_byte b0 + Z_of_byte b1) - 65536).
  { symmetry. apply Z.mod_unique with 1; lia. }
  lia.
Qed.

Lemma frame_header (payload : list byte) :
  Z.of_nat (length payload) <= MaxUint16 ->
  Uint16 (frame payload) = Ok (Z.of_nat (length payload)).
Proof.
  intros H. unfold MaxUint16 in H. unfold frame. cbn [Uint16].
  rewrite be16_decode by lia. reflexivity.
Qed.

(** ** The broker *)

Lemma remove_nth_perm {A} (i : nat) (l : list A) (d : A) :
  (i < length l)%nat -> Permutation (nth i l d :: remove_nth i l) l.
Proof.
  revert i. induction l as [|h t IH]; intros i Hi; cbn [length] in Hi.
  - lia.
  - destruct i as [|j]; cbn [nth remove_nth].
    + reflexivity.
    + etransitivity; [apply perm_swap|].
      apply perm_skip, IH. lia.
Qed.

Lemma remove_nth_length {A} (i : nat) (l : list A) :
  (i < length l)%nat -> length (remove_nth i l) = Nat.pred (length l).
Proof.
  revert i. induction l as [|h t IH]; intros i Hi; cbn [length] in Hi.
  - lia.
  - destruct i as [|j]; cbn [remove_nth length]; [reflexivity|].
    rewrite IH by lia. lia.
Qed.

(** Whatever the scheduler chooses, every goroutine takes the mutex
    once. *)
Lemma lock_order_perm {A} (choices : list nat) (tasks : list A) :
  Permutation (lock_order choices tasks) tasks.
Proof.
  unfold lock_order.
  remember (length tasks) as n eqn:Hn.
  revert choices tasks Hn.
  induction n as [|n IH]; intros choices tasks Hn.
  - destruct tasks; [reflexivity | discriminate Hn].
  - destruct tasks as [|t0 rest]; [discriminate Hn|].
    cbn [lock_order_n].
    set (i := (hd 0%nat choices mod length (t0 :: rest))%nat).
    assert (Hi : (i < length (t0 :: rest))%nat).
    { apply Nat.mod_upper_bound. cbn [length]. lia. }
    etransitivity; [|apply (remove_nth_perm i (t0 :: rest) t0 Hi)].
    apply perm_skip, IH.
    rewrite remove_nth_length by exact Hi. rewrite <- Hn. reflexivity.
Qed.

(** ** Claims on the transport *)

(** What holds of the framing.  For a payload of at most 65535 bytes on
    a connection that accepts the write, [exchangePacket] makes one
    [Write], of the frame of the payload: its length in two bytes, high
    byte first, and then the payload.  It then reads two bytes as the
    length [n] of the reply; a stream that ends before them is a
    failure.  For [n] of at most 65533 it reads exactly [n] further
    bytes and returns them, and a stream that ends before them is a
    failure.  On a connection whose peer sends the frame back, a
    payload of at most 65533 bytes comes back as it was sent. *)
Lemma exchangePacket_framing_below (c : Conn) (send : list byte) :
  Z.of_nat (length send) <= MaxUint16 ->
  wbroken c = false ->
  wlog (snd (exchangePacket c send)) = wlog c ++ [frame send]
  /\ frame send
     = byte_of_Z (Z.shiftr (Z.of_nat (length send)) 8)
         :: byte_of_Z (Z.of_nat (length send)) :: send
  /\ Uint16 (frame send) = Ok (Z.of_nat (length send))
  /\ ((length (unread c ++ peer c (frame send)) < 2)%nat ->
      exists e, fst (exchangePacket c send) = Err e)
  /\ (forall b0 b1 rest,
         unread c ++ peer c (frame send) = b0 :: b1 :: rest ->
         256 * Z_of_byte b0 + Z_of_byte b1 <= 65533 ->
         ((Z.to_nat (256 * Z_of_byte b0 + Z_of_byte b1) <= length rest)%nat ->
          fst (exchangePacket c send)
          = Ok (firstn (Z.to_nat (256 * Z_of_byte b0 + Z_of_byte b1)) rest)
          /\ unread (snd (exchangePacket c send))
             = skipn (Z.to_nat (256 * Z_of_byte b0 + Z_of_byte b1)) rest)
         /\ ((length rest < Z.to_nat (256 * Z_of_byte b0 + Z_of_byte b1))%nat ->
             exists e, fst (exchangePacket c send) = Err e))
  /\ (Z.of_nat (length send) <= 65533 ->
      unread c = [] -> peer c (frame send) = frame send ->
      fst (exchangePacket c send) = Ok send).
Proof.
  intros Hs Hw.
  rewrite (exchangePacket_fits c send Hs).
  unfold conn_Write. rewrite Hw.
  set (c1 := mkConn (remote c) (peer c) (unread c ++ peer c (frame send))
                    (wlog c ++ [frame send]) false (closed c)).
  assert (Hu : unread c1 = unread c ++ peer c (frame send)) by reflexivity.
  split; [rewrite read_reply_wlog; reflexivity|].
  split; [reflexivity|].
  split; [apply frame_header; exact Hs|].
  split; [intros H; apply read_reply_short_header; rewrite Hu; exact H|].
  split.
  - intros b0 b1 rest E. apply read_reply_stream. rewrite Hu. exact E.
  - intros Hsmall Hnil Hecho.
    assert (E : unread c1
                = byte_of_Z (Z.shiftr (Z.of_nat (length send)) 8)
                    :: byte_of_Z (Z.of_nat (length send)) :: send).
    { rewrite Hu, Hnil, Hecho. reflexivity. }
    assert (Hv : 256 * Z_of_byte
                         (byte_of_Z (Z.shiftr (Z.of_nat (length send)) 8))
                 + Z_of_byte (byte_of_Z (Z.of_nat (length send)))
                 = Z.of_nat (length send)).
    { rewrite <- be16_value. apply be16_decode. lia. }
    destruct (read_reply_stream c1 _ _ _ E) as [Hok _]; [lia|].
    rewrite Hv, Nat2Z.id, firstn_all in Hok.
    apply Hok. lia.
Qed.

(** C6.  The framing is as the claim says for payloads and replies of
    at most 65533 bytes ([exchangePacket_framing_below]), and fails for
    the two longest ones: a payload of 65533 bytes that the peer sends
    back is returned as it was sent, and for a payload of 65534 or of
    65535 bytes that the peer sends back [exchangePacket] panics at the
    slice expression [temp[2:2+n]], whose end [2+n] wraps around in
    [uint16] to 0 or to 1.  In all three cases the frame was written in
    one [Write]. *)
Theorem exchangePacket_reply_wraps :
  echo_of 65533 = Ok (repeat x01 (Z.to_nat 65533))
  /\ echo_of 65534 = Panic "slice bounds out of range"
  /\ echo_of 65535 = Panic "slice bounds out of range"
  /\ wlog (snd (exchangePacket loopback (repeat x01 (Z.to_nat 65535))))
     = [frame (repeat x01 (Z.to_nat 65535))].
Proof.
  assert (Hlen : forall len, 0 <= len ->
                             Z.of_nat (length (repeat x01 (Z.to_nat len))) = len).
  { intros len H. rewrite repeat_length. lia. }
  assert (Hecho : forall len,
             0 <= len <= 65535 ->
             exchangePacket loopback (repeat x01 (Z.to_nat len))
             = read_reply
                 (mkConn "loopback" (fun p => p)
                         (frame (repeat x01 (Z.to_nat len)))
                         [frame (repeat x01 (Z.to_nat len))] false false)).
  { intros len H. rewrite exchangePacket_fits; [reflexivity|].
    rewrite Hlen by lia. unfold MaxUint16. lia. }
  assert (Hval : forall len,
             0 <= len <= 65535 ->
             256 * Z_of_byte (byte_of_Z (Z.shiftr len 8))
             + Z_of_byte (byte_of_Z len) = len).
  { intros len H. rewrite <- be16_value. apply be16_decode. lia. }
  unfold echo_of. split; [|split; [|split]].
  - apply exchangePacket_framing_below; try reflexivity;
      rewrite Hlen; unfold MaxUint16; lia.
  - rewrite Hecho by lia.
    eapply read_reply_wraps; [reflexivity|].
    rewrite Hlen, Hval; lia.
  - rewrite Hecho by lia.
    eapply read_reply_wraps; [reflexivity|].
    rewrite Hlen, Hval; lia.
  - rewrite Hecho by lia. rewrite read_reply_wlog. reflexivity.
Qed.

(** A payload that does not fit the buffer: the slice expression
    [temp[:2+len(send)]] panics, before the write. *)
Lemma exchangePacket_too_long (c : Conn) (send : list byte) :
  MaxUint16 < Z.of_nat (length send) ->
  exchangePacket c send = (Panic "slice bounds out of range", c).
Proof.
  intros H. unfold exchangePacket.
  pose proof (repeat_length x00 (Z.to_nat (2 + MaxUint16))) as Hlen.
  set (temp0 := repeat x00 (Z.to_nat (2 + MaxUint16))) in *.
  clearbody temp0. unfold MaxUint16 in *.
  unfold PutUint16.
  replace (2 <=? length temp0)%nat with true
    by (symmetry; apply Nat.leb_le; lia).
  cbv zeta. rewrite slice_beyond; [reflexivity|].
  rewrite copy_at_length, !set_nth_length. lia.
Qed.

(** C7.  For a payload of more than 65535 bytes, [exchangePacket]
    panics at the slice expression [temp[:2+len(send)]], before the
    write: nothing is sent and the connection is as it was.  A payload
    of at most 65535 bytes is framed and written.  So, on a connection
    that accepts writes, a frame is written exactly when the length of
    the payload is at most 65535. *)
Theorem exchangePacket_oversize (c : Conn) (send : list byte) :
  (MaxUint16 < Z.of_nat (length send) ->
   exchangePacket c send = (Panic "slice bounds out of range", c))
  /\ (Z.of_nat (length send) <= MaxUint16 -> wbroken c = false ->
      wlog (snd (exchangePacket c send)) = wlog c ++ [frame send])
  /\ (wbroken c = false ->
      (wlog (snd (exchangePacket c send)) <> wlog c
       <-> Z.of_nat (length send) <= MaxUint16)).
Proof.
  assert (Hfit : Z.of_nat (length send) <= MaxUint16 -> wbroken c = false ->
                 wlog (snd (exchangePacket c send)) = wlog c ++ [frame send]).
  { intros Hs Hw. rewrite (exchangePacket_fits c send Hs).
    unfold conn_Write. rewrite Hw. rewrite read_reply_wlog. reflexivity. }
  split; [apply exchangePacket_too_long|]. split; [exact Hfit|].
  intros Hw. split.
  - intros Hne.
    destruct (Z.le_gt_cases (Z.of_nat (length send)) MaxUint16) as [Hs|Hs];
      [exact Hs|].
    exfalso. apply Hne.
    rewrite (exchangePacket_too_long c send) by lia. reflexivity.
  - intros Hs. rewrite (Hfit Hs Hw). intros E.
    apply (f_equal (@length (list byte))) in E.
    rewrite length_app in E. cbn [length] in E. lia.
Qed.

(** A payload of 65536 bytes. *)
Lemma exchangePacket_oversize_witness :
  exchangePacket loopback (repeat x01 (Z.to_nat 65536))
  = (Panic "slice bounds out of range", loopback).
Proof.
  apply (proj1 (exchangePacket_oversize loopback (repeat x01 (Z.to_nat 65536)))).
  vm_compute. reflexivity.
Defined.

(** ** Claims on the broker *)

Lemma spawn_all_from (l : list string) (tasks : list (nat * string)) :
  fold_left (fun tasks addr => tasks ++ [(length tasks, addr)]) l tasks
  = tasks ++ combine (seq (length tasks) (length l)) l.
Proof.
  revert tasks. induction l as [|a l IH]; intros tasks; cbn [fold_left].
  - cbn. symmetry. apply app_nil_r.
  - rewrite IH, length_app. cbn [length seq combine].
    rewrite <- app_assoc. cbn [app].
    replace (length tasks + 1)%nat with (S (length tasks)) by lia.
    reflexivity.
Qed.

Lemma spawn_all_length (l : list string) : length (spawn_all l) = length l.
Proof.
  unfold spawn_all. rewrite spawn_all_from. cbn [app length].
  rewrite length_combine, length_seq. lia.
Qed.

Lemma dial_task_spawned (r : DialOutcome) (s : Race) :
  spawned (dial_task r s) = spawned s.
Proof.
  unfold dial_task. destruct r; [destruct (conn s)|]; reflexivity.
Qed.

Lemma race_spawned (dial : nat -> string -> DialOutcome)
      (order : list (nat * string)) (s : Race) :
  spawned (fold_left (fun s t => dial_task (dial (fst t) (snd t)) s) order s)
  = spawned s.
Proof.
  revert s. induction order as [|t order IH]; intros s; cbn [fold_left].
  - reflexivity.
  - rewrite IH. apply dial_task_spawned.
Qed.

(** A race in which every attempt fails: no winner, and the errors are
    recorded in the order in which the goroutines took the mutex. *)
Lemma race_all_refused (dial : nat -> string -> DialOutcome)
      (order : list (nat * string)) (s : Race) :
  (forall t, In t order -> exists e, dial (fst t) (snd t) = Refused e) ->
  conn (fold_left (fun s t => dial_task (dial (fst t) (snd t)) s) order s)
  = conn s
  /\ map Refused
         (errList
            (fold_left (fun s t => dial_task (dial (fst t) (snd t)) s) order s))
     = map Refused (errList s) ++ map (fun t => dial (fst t) (snd t)) order.
Proof.
  revert s. induction order as [|t order IH]; intros s H; cbn [fold_left map].
  - rewrite app_nil_r. split; reflexivity.
  - destruct (H t (or_introl eq_refl)) as [e He].
    destruct (IH (dial_task (dial (fst t) (snd t)) s)) as [Hc Hl].
    { intros t' Ht'. apply H. right. exact Ht'. }
    rewrite Hc, Hl, He. cbn [dial_task conn errList]. split; [reflexivity|].
    rewrite map_app, <- app_assoc. reflexivity.
Qed.

(** C8.  On an empty address list [gDialRemote] returns its own error
    and has started no goroutine.  On a list that is not empty it
    starts one goroutine for each address; when every dial fails, it
    returns the first error of the error list, which is the error of
    the goroutine that took the mutex first, and every goroutine has
    recorded its error. *)
Theorem gDialRemote_failure (dial : nat -> string -> DialOutcome)
        (choices : list nat) :
  (fst (gDialRemote dial choices []) = Err ErrTargetAddrListNil
   /\ spawned (snd (gDialRemote dial choices [])) = [])
  /\ (forall targetAddrList,
         targetAddrList <> [] ->
         (forall t, In t (spawn_all targetAddrList) ->
                    exists e, dial (fst t) (snd t) = Refused e) ->
         exists e rest t order,
           fst (gDialRemote dial choices targetAddrList) = Err e
           /\ errList (snd (gDialRemote dial choices targetAddrList)) = e :: rest
           /\ lock_order choices (spawn_all targetAddrList) = t :: order
           /\ dial (fst t) (snd t) = Refused e
           /\ length (e :: rest) = length targetAddrList
           /\ length (spawned (snd (gDialRemote dial choices targetAddrList)))
              = length targetAddrList).
Proof.
  split; [split; reflexivity|].
  intros l Hl Hall.
  unfold gDialRemote.
  destruct l as [|a l']; [contradiction|]. cbn [length Nat.eqb].
  set (l := a :: l') in *.
  set (order := lock_order choices (spawn_all l)).
  assert (Hperm : Permutation order (spawn_all l)) by apply lock_order_perm.
  destruct (race_all_refused dial order (mkRace None [] (spawn_all l) [] 0))
    as [Hc He].
  { intros t Ht. apply Hall. eapply Permutation_in; eassumption. }
  pose proof (race_spawned dial order (mkRace None [] (spawn_all l) [] 0))
    as Hsp.
  set (s := fold_left (fun s t => dial_task (dial (fst t) (snd t)) s) order
                      (mkRace None [] (spawn_all l) [] 0)) in *.
  cbn [conn errList spawned map app] in Hc, He, Hsp.
  rewrite Hc.
  assert (Hlen : length (errList s) = length l).
  { rewrite <- (length_map Refused), He, length_map.
    rewrite (Permutation_length Hperm). apply spawn_all_length. }
  destruct order as [|t order'] eqn:Eo.
  - apply Permutation_length in Hperm. rewrite spawn_all_length in Hperm.
    discriminate Hperm.
  - destruct (errList s) as [|e rest] eqn:Ee; [discriminate Hlen|].
    cbn [map] in He. inversion He as [[H0 H1]].
    exists e, rest, t, order'. cbn [fst snd].
    repeat split; auto.
    rewrite Hsp. apply spawn_all_length.
Qed.

(** Three addresses, none reachable; the scheduler lets the third
    goroutine take the mutex first. *)
Lemma gDialRemote_failure_witness :
  fst (gDialRemote (fun _ addr => Refused (ErrDial addr)) [2%nat]
                   ["a:53"; "b:53"; "c:53"])
  = Err (ErrDial "c:53").
Proof.
  destruct (proj2 (gDialRemote_failure
                     (fun _ addr => Refused (ErrDial addr)) [2%nat])
                  ["a:53"; "b:53"; "c:53"])
    as (e & rest & t & order & Hr & _ & Ho & Hd & _).
  - discriminate.
  - intros t _. eexists. reflexivity.
  - vm_compute in Ho. inversion Ho; subst. cbn in Hd. inversion Hd; subst.
    exact Hr.
Defined.

(** ** The referral loop *)

Lemma referral_from (authorities : list Resource) (nsList : list string) :
  fold_left
    (fun nsList one =>
       match Body one with
       | NSResource ns =>
         nsList ++ [(TrimSuffix (Name_String ns) "." ++ ":53")%string]
       | _ => nsList
       end)
    authorities nsList
  = nsList ++ map with_port (ns_targets authorities).
Proof.
  revert nsList.
  induction authorities as [|one rest IH]; intros nsList; cbn [fold_left].
  - cbn. symmetry. apply app_nil_r.
  - rewrite IH. unfold ns_targets at 2. cbn [flat_map]. fold (ns_targets rest).
    destruct (Body one); cbn [app map]; try reflexivity.
    rewrite <- app_assoc. reflexivity.
Qed.

(** The server list of a referral: the names of the NS records of the
    authority section, in order, each with the port. *)
Lemma referral_spec (authorities : list Resource) :
  referral authorities = map with_port (ns_targets authorities).
Proof. unfold referral. apply referral_from. Qed.

Lemma gDialRemote_no_fuel (dial : nat -> string -> DialOutcome)
      (choices : list nat) (l : list string) :
  fst (gDialRemote dial choices l) <> Fuel.
Proof.
  unfold gDialRemote. destruct (length l =? 0)%nat; [discriminate|].
  match goal with |- context [conn ?s] => destruct (conn s) end;
    [discriminate|].
  match goal with |- context [errList ?s] => destruct (errList s) end;
    discriminate.
Qed.

Lemma read_reply_no_fuel (c : Conn) : fst (read_reply c) <> Fuel.
Proof.
  unfold read_reply, io_ReadFull.
  destruct (2 <=? length (unread c))%nat; [|discriminate].
  destruct (Uint16 (firstn 2 (unread c))) as [n| | |] eqn:E; cbn [fst fail_as];
    try discriminate.
  - destruct (uint16 (2 + n) <? 2); [discriminate|]. cbn [unread].
    destruct (Z.to_nat n <=? length (skipn 2 (unread c)))%nat; discriminate.
  - unfold Uint16 in E. destruct (firstn 2 (unread c)) as [|? [|? ?]];
      discriminate E.
Qed.

Lemma exchangePacket_no_fuel (c : Conn) (send : list byte) :
  fst (exchangePacket c send) <> Fuel.
Proof.
  destruct (Z.le_gt_cases (Z.of_nat (length send)) MaxUint16) as [Hs|Hs].
  - rewrite (exchangePacket_fits c send Hs).
    destruct (conn_Write c (frame send)) as [[e|] c1]; [discriminate|].
    apply read_reply_no_fuel.
  - rewrite (exchangePacket_too_long c send) by lia. discriminate.
Qed.

(** What a turn of the loop ends in, case by case. *)
Lemma loop_body_cases (cd : Codec) (w : World) (send : list byte)
      (depth : Z) (serverList : list string) :
  match loop_body cd w send depth serverList with
  | Return r None => 10 < depth /\ r = Err ErrMaxDepth
  | Return r (Some h) =>
    depth <= 10 /\ hop_depth h = depth /\ hop_servers h = serverList
    /\ r <> Fuel /\ is_referral h = false
    /\ (forall m, hop_reply h = Some m -> Answers m = [] ->
                  ns_targets (Authorities m) = [] -> r = Err ErrNotFound)
  | Continue h nsList =>
    depth <= 10 /\ hop_depth h = depth /\ hop_servers h = serverList
    /\ is_referral h = true
    /\ exists m, hop_reply h = Some m /\ Answers m = []
                 /\ ns_targets (Authorities m) <> []
                 /\ nsList = map with_port (ns_targets (Authorities m))
  end.
Proof.
  unfold loop_body.
  destruct (Z.gtb_spec depth 10) as [Hd|Hd]; [split; [lia|reflexivity]|].
  pose proof (gDialRemote_no_fuel (dialer w depth) (scheduler w depth)
                                  serverList) as Hg.
  destruct (gDialRemote (dialer w depth) (scheduler w depth) serverList)
    as [[c|e|msg|] race]; cbn [fst] in Hg;
    try (repeat split; try assumption; try discriminate; fail).
  2: { contradiction. }
  pose proof (exchangePacket_no_fuel c send) as Hx.
  destruct (exchangePacket c send) as [[receive|e|msg|] c1]; cbn [fst] in Hx;
    try (repeat split; try assumption; try discriminate; fail).
  2: { contradiction. }
  destruct (Unpack cd receive) as [m|e];
    [|repeat split; try assumption; try discriminate].
  rewrite referral_spec. unfold is_referral.
  destruct (Answers m) as [|a answers] eqn:Ea; cbn [length Nat.ltb Nat.leb].
  - destruct (ns_targets (Authorities m)) as [|n ns] eqn:En; cbn [map].
    + repeat split; try assumption; try discriminate.
      cbn [hop_reply]. rewrite Ea, En. reflexivity.
    + repeat split; try assumption.
      * cbn [hop_reply]. rewrite Ea, En. reflexivity.
      * exists m. rewrite Ea, En. repeat split; try reflexivity. discriminate.
  - repeat split; try assumption; try discriminate.
    + cbn [hop_reply]. rewrite Ea. reflexivity.
    + intros m' Hm' Ha. inversion Hm'; subst m'. rewrite Ea in Ha.
      discriminate Ha.
Qed.

(** The hops of the loop form a chain. *)
Lemma referral_loop_chain (cd : Codec) (w : World) (send : list byte)
      (fuel : nat) :
  forall depth serverList,
    chain depth serverList
          (snd (referral_loop cd w send fuel depth serverList)).
Proof.
  induction fuel as [|fuel IH]; intros depth serverList; cbn [referral_loop].
  - apply chain_nil.
  - pose proof (loop_body_cases cd w send depth serverList) as Hb.
    destruct (loop_body cd w send depth serverList) as [r [h|]|h nsList].
    + destruct Hb as (Hd & Hh & Hs & _). apply chain_last; assumption.
    + apply chain_nil.
    + destruct Hb as (Hd & Hh & Hs & _ & m & Hm & Ha & Hn & ->).
      specialize (IH (depth + 1) (map with_port (ns_targets (Authorities m)))).
      destruct (referral_loop cd w send fuel (depth + 1)
                              (map with_port (ns_targets (Authorities m))))
        as [r hs].
      cbn [snd] in *. eapply chain_cons; eassumption.
Qed.

(** With a turn of budget for every depth up to 11, the loop ends by
    itself. *)
Lemma referral_loop_total (cd : Codec) (w : World) (send : list byte)
      (fuel : nat) :
  forall depth serverList,
    Z.max 0 (11 - depth) < Z.of_nat fuel ->
    fst (referral_loop cd w send fuel depth serverList) <> Fuel.
Proof.
  induction fuel as [|fuel IH]; intros depth serverList Hf;
    cbn [referral_loop].
  - lia.
  - pose proof (loop_body_cases cd w send depth serverList) as Hb.
    destruct (loop_body cd w send depth serverList) as [r [h|]|h nsList].
    + destruct Hb as (_ & _ & _ & Hr & _). exact Hr.
    + destruct Hb as (_ & ->). discriminate.
    + destruct Hb as (Hd & _).
      specialize (IH (depth + 1) nsList).
      destruct (referral_loop cd w send fuel (depth + 1) nsList) as [r hs].
      cbn [fst] in *. apply IH. lia.
Qed.

(** A run in which every hop got a referral ends at depth 11. *)
Lemma referral_loop_exhausted (cd : Codec) (w : World) (send : list byte)
      (fuel : nat) :
  forall depth serverList,
    depth <= 11 ->
    11 - depth < Z.of_nat fuel ->
    forallb is_referral
            (snd (referral_loop cd w send fuel depth serverList)) = true ->
    fst (referral_loop cd w send fuel depth serverList) = Err ErrMaxDepth
    /\ depth
       + Z.of_nat (length (snd (referral_loop cd w send fuel depth serverList)))
       = 11.
Proof.
  induction fuel as [|fuel IH]; intros depth serverList Hd Hf;
    cbn [referral_loop].
  - lia.
  - pose proof (loop_body_cases cd w send depth serverList) as Hb.
    destruct (loop_body cd w send depth serverList) as [r [h|]|h nsList].
    + destruct Hb as (_ & _ & _ & _ & Hr & _).
      cbn [snd forallb]. rewrite Hr. discriminate.
    + destruct Hb as (Hd' & ->). intros _. cbn [fst snd length].
      split; [reflexivity|lia].
    + destruct Hb as (Hd' & _).
      specialize (IH (depth + 1) nsList).
      destruct (referral_loop cd w send fuel (depth + 1) nsList) as [r hs].
      cbn [fst snd forallb length] in *. intros Hall.
      apply andb_true_iff in Hall. destruct Hall as [_ Hall].
      destruct IH as [Hr Hl]; try lia; try assumption.
      split; [exact Hr|lia].
Qed.

(** A hop whose reply has neither an answer nor an NS record in the
    authority section ends the run with [ErrNotFound]. *)
Lemma referral_loop_not_found (cd : Codec) (w : World) (send : list byte)
      (fuel : nat) :
  forall depth serverList h m,
    In h (snd (referral_loop cd w send fuel depth serverList)) ->
    hop_reply h = Some m -> Answers m = [] ->
    ns_targets (Authorities m) = [] ->
    fst (referral_loop cd w send fuel depth serverList) = Err ErrNotFound.
Proof.
  induction fuel as [|fuel IH]; intros depth serverList h m;
    cbn [referral_loop].
  - intros [].
  - pose proof (loop_body_cases cd w send depth serverList) as Hb.
    destruct (loop_body cd w send depth serverList) as [r [h0|]|h0 nsList].
    + destruct Hb as (_ & _ & _ & _ & _ & Hnf).
      cbn [fst snd]. intros [->|[]] Hm Ha Hn. eapply Hnf; eassumption.
    + intros [].
    + destruct Hb as (_ & _ & _ & _ & m0 & Hm0 & _ & Hn0 & _).
      specialize (IH (depth + 1) nsList h m).
      destruct (referral_loop cd w send fuel (depth + 1) nsList) as [r hs].
      cbn [fst snd] in *. intros [->|Hin] Hm Ha Hn.
      * rewrite Hm0 in Hm. inversion Hm; subst. contradiction.
      * apply IH; assumption.
Qed.

(** A referral at a depth below 10 is followed by a hop. *)
Lemma referral_loop_next (cd : Codec) (w : World) (send : list byte)
      (fuel : nat) :
  forall depth serverList i h,
    11 - depth < Z.of_nat fuel ->
    nth_error (snd (referral_loop cd w send fuel depth serverList)) i = Some h ->
    is_referral h = true -> hop_depth h < 10 ->
    exists h',
      nth_error (snd (referral_loop cd w send fuel depth serverList)) (S i)
      = Some h'.
Proof.
  induction fuel as [|fuel IH]; intros depth serverList i h Hf;
    cbn [referral_loop].
  - destruct i; discriminate.
  - pose proof (loop_body_cases cd w send depth serverList) as Hb.
    destruct (loop_body cd w send depth serverList) as [r [h0|]|h0 nsList].
    + destruct Hb as (_ & _ & _ & _ & Hr & _). cbn [snd].
      destruct i as [|[|i]]; cbn [nth_error]; try discriminate.
      intros E. inversion E; subst. congruence.
    + destruct i; discriminate.
    + destruct Hb as (Hd & Hh & _).
      specialize (IH (depth + 1) nsList).
      destruct fuel as [|fuel']; [lia|].
      destruct (referral_loop cd w send (S fuel') (depth + 1) nsList)
        as [r hs] eqn:E.
      cbn [snd] in *. destruct i as [|i]; cbn [nth_error].
      * intros E0 _ Hlt. inversion E0; subst h0.
        cbn [referral_loop] in E.
        pose proof (loop_body_cases cd w send (depth + 1) nsList) as Hb1.
        destruct (loop_body cd w send (depth + 1) nsList)
          as [r1 [h1|]|h1 ns1].
        -- inversion E; subst. eexists; reflexivity.
        -- destruct Hb1 as [Hb1 _]. lia.
        -- destruct (referral_loop cd w send fuel' (depth + 1 + 1) ns1).
           inversion E; subst. eexists; reflexivity.
      * intros Hi Hr Hlt. apply (IH i h); try assumption. lia.
Qed.

Lemma chain_depths {depth : Z} {serverList : list string} {hs : list Hop} :
  chain depth serverList hs ->
  forall i h, nth_error hs i = Some h ->
              hop_depth h = depth + Z.of_nat i /\ hop_depth h <= 10.
Proof.
  induction 1 as [d sl|d sl h Hd Hh Hs|d sl h m hs Hd Hh Hs Hm Ha Hn Hc IH];
    intros i h' Hi.
  - destruct i; discriminate.
  - destruct i as [|[|i]]; try discriminate.
    inversion Hi; subst. lia.
  - destruct i as [|i]; cbn [nth_error] in Hi.
    + inversion Hi; subst. lia.
    + destruct (IH i h' Hi). lia.
Qed.

Lemma chain_length {depth : Z} {serverList : list string} {hs : list Hop} :
  chain depth serverList hs ->
  hs <> [] -> depth + Z.of_nat (length hs) <= 11.
Proof.
  induction 1 as [d sl|d sl h Hd Hh Hs|d sl h m hs Hd Hh Hs Hm Ha Hn Hc IH];
    intros Hne.
  - contradiction.
  - cbn [length]. lia.
  - cbn [length]. destruct hs as [|h1 hs'].
    + cbn [length]. lia.
    + assert (h1 :: hs' <> []) as Hne' by discriminate.
      specialize (IH Hne'). cbn [length] in *. lia.
Qed.

Lemma chain_servers {depth : Z} {serverList : list string} {hs : list Hop} :
  chain depth serverList hs ->
  serverList <> [] -> forall h, In h hs -> hop_servers h <> [].
Proof.
  induction 1 as [d sl|d sl h Hd Hh Hs|d sl h m hs Hd Hh Hs Hm Ha Hn Hc IH];
    intros Hne h' Hin.
  - destruct Hin.
  - destruct Hin as [->|[]]. congruence.
  - destruct Hin as [->|Hin]; [congruence|].
    apply IH; [|exact Hin].
    destruct (ns_targets (Authorities m)); [contradiction|discriminate].
Qed.

Lemma chain_adjacent {depth : Z} {serverList : list string} {hs : list Hop} :
  chain depth serverList hs ->
  forall i h h',
    nth_error hs i = Some h -> nth_error hs (S i) = Some h' ->
    exists m, hop_reply h = Some m /\ Answers m = []
              /\ hop_servers h' = map with_port (ns_targets (Authorities m)).
Proof.
  induction 1 as [d sl|d sl h Hd Hh Hs|d sl h m hs Hd Hh Hs Hm Ha Hn Hc IH];
    intros i h1 h2 H1 H2.
  - destruct i; discriminate.
  - destruct i as [|[|i]]; discriminate.
  - destruct i as [|i]; cbn [nth_error] in H1, H2.
    + inversion H1; subst h1. exists m. repeat split; try assumption.
      inversion Hc; subst; cbn [nth_error] in H2; try discriminate;
        inversion H2; subst; assumption.
    + eapply IH; eassumption.
Qed.

Lemma chain_head {depth : Z} {serverList : list string} {hs : list Hop} :
  chain depth serverList hs ->
  forall h, nth_error hs 0 = Some h -> hop_servers h = serverList.
Proof.
  destruct 1; intros first Hfirst; cbn [nth_error] in Hfirst;
    try discriminate; inversion Hfirst; congruence.
Qed.

(** A call either fails before the loop, with no hop, or is a run of
    the loop from depth 0 on the root servers with the packed query. *)
Lemma lookup_shape (cd : Codec) (w : World) (g : Z) (domain : string)
      (typeC : RType) :
  (hops (lookupResourceListL1 cd w g domain typeC) = []
   /\ exists e, result (lookupResourceListL1 cd w g domain typeC) = Err e)
  \/ exists send,
      result (lookupResourceListL1 cd w g domain typeC)
      = fst (referral_loop cd w send budget 0 gRootServers)
      /\ hops (lookupResourceListL1 cd w g domain typeC)
         = snd (referral_loop cd w send budget 0 gRootServers).
Proof.
  unfold lookupResourceListL1.
  destruct (NewName cd _) as [name|e]; [|left; split; [|exists e]; reflexivity].
  destruct (Pack cd _) as [send|e]; [|left; split; [|exists e]; reflexivity].
  right. exists send.
  destruct (referral_loop cd w send budget 0 gRootServers) as [r hs].
  split; reflexivity.
Qed.

Lemma lookup_chain (cd : Codec) (w : World) (g : Z) (domain : string)
      (typeC : RType) :
  chain 0 gRootServers (hops (lookupResourceListL1 cd w g domain typeC)).
Proof.
  destruct (lookup_shape cd w g domain typeC) as [[-> _]|(send & _ & ->)].
  - apply chain_nil.
  - apply referral_loop_chain.
Qed.

(** A call returns: the budget of twelve turns is never used up. *)
Lemma lookupResourceListL1_total (cd : Codec) (w : World) (g : Z)
      (domain : string) (typeC : RType) :
  result (lookupResourceListL1 cd w g domain typeC) <> Fuel.
Proof.
  destruct (lookup_shape cd w g domain typeC) as [[_ [e ->]]|(send & -> & _)].
  - discriminate.
  - apply referral_loop_total. unfold budget. lia.
Qed.

(** ** Claims on the referral loop *)

(** C1.  A call makes at most eleven hops; the hop at position [i] of
    the trace is at depth [i], so hops are made at depths 0 to 10 only.
    When the loop was entered and every hop got a referral, the call
    made all eleven hops and fails with [ErrMaxDepth].  The call always
    returns. *)
Theorem lookup_depth_budget (cd : Codec) (w : World) (g : Z)
        (domain : string) (typeC : RType) :
  (length (hops (lookupResourceListL1 cd w g domain typeC)) <= 11)%nat
  /\ (forall i h,
         nth_error (hops (lookupResourceListL1 cd w g domain typeC)) i = Some h ->
         hop_depth h = Z.of_nat i /\ 0 <= hop_depth h <= 10)
  /\ (hops (lookupResourceListL1 cd w g domain typeC) <> [] ->
      forallb is_referral (hops (lookupResourceListL1 cd w g domain typeC))
      = true ->
      result (lookupResourceListL1 cd w g domain typeC) = Err ErrMaxDepth
      /\ length (hops (lookupResourceListL1 cd w g domain typeC)) = 11%nat)
  /\ result (lookupResourceListL1 cd w g domain typeC) <> Fuel.
Proof.
  pose proof (lookup_chain cd w g domain typeC) as Hc.
  split; [|split; [|split]].
  - destruct (hops (lookupResourceListL1 cd w g domain typeC)) as [|h hs] eqn:E.
    + cbn [length]. lia.
    + rewrite <- E in *.
      assert (Hne : hops (lookupResourceListL1 cd w g domain typeC) <> [])
        by (rewrite E; discriminate).
      pose proof (chain_length Hc Hne). lia.
  - intros i h Hi. destruct (chain_depths Hc i h Hi) as [Hd Hle]. lia.
  - intros Hne Hall.
    destruct (lookup_shape cd w g domain typeC) as [[E _]|(send & Hr & Hh)];
      [contradiction|].
    rewrite Hr, Hh. rewrite Hh in Hall.
    destruct (referral_loop_exhausted cd w send budget 0 gRootServers)
      as [H1 H2]; try (unfold budget; lia); try assumption.
    split; [exact H1|lia].
  - apply lookupResourceListL1_total.
Qed.

(** A delegation that refers to itself for ever: eleven hops, then
    [ErrMaxDepth]. *)
Lemma lookup_depth_budget_witness :
  result (lookupResourceListL1 demo_codec loop_world 0 "example.com" TypeA)
  = Err ErrMaxDepth
  /\ length (hops (lookupResourceListL1 demo_codec loop_world 0
                                       "example.com" TypeA)) = 11%nat.
Proof.
  apply (proj1 (proj2 (proj2 (lookup_depth_budget demo_codec loop_world 0
                                                  "example.com" TypeA)))).
  - vm_compute. discriminate.
  - vm_compute. reflexivity.
Defined.

(** C2.  Every server list passed to the broker is non-empty; the first
    is the list of the root servers.  A hop that is followed by another
    one had a reply without answers, and the server list of the next
    hop is the list of the names of the NS records of the authority
    section of that reply, in order, each without its final dot and
    with [":53"] appended.  At a hop whose reply has no answer: without
    an NS record in the authority section the call fails with
    [ErrNotFound]; with one, and below depth 10, there is a next hop,
    on that server list. *)
Theorem referral_server_sets (cd : Codec) (w : World) (g : Z)
        (domain : string) (typeC : RType) :
  (forall h, In h (hops (lookupResourceListL1 cd w g domain typeC)) ->
             hop_servers h <> [])
  /\ (forall h,
         nth_error (hops (lookupResourceListL1 cd w g domain typeC)) 0 = Some h ->
         hop_servers h = gRootServers)
  /\ (forall i h h',
         nth_error (hops (lookupResourceListL1 cd w g domain typeC)) i = Some h ->
         nth_error (hops (lookupResourceListL1 cd w g domain typeC)) (S i)
         = Some h' ->
         exists m, hop_reply h = Some m /\ Answers m = []
                   /\ hop_servers h'
                      = map with_port (ns_targets (Authorities m)))
  /\ (forall i h m,
         nth_error (hops (lookupResourceListL1 cd w g domain typeC)) i = Some h ->
         hop_reply h = Some m -> Answers m = [] ->
         (ns_targets (Authorities m) = [] ->
          result (lookupResourceListL1 cd w g domain typeC) = Err ErrNotFound)
         /\ (ns_targets (Authorities m) <> [] -> hop_depth h < 10 ->
             exists h',
               nth_error (hops (lookupResourceListL1 cd w g domain typeC)) (S i)
               = Some h'
               /\ hop_servers h'
                  = map with_port (ns_targets (Authorities m)))).
Proof.
  pose proof (lookup_chain cd w g domain typeC) as Hc.
  split; [|split; [|split]].
  - apply (chain_servers Hc). discriminate.
  - apply (chain_head Hc).
  - apply (chain_adjacent Hc).
  - intros i h m Hi Hm Ha. split.
    + intros Hn.
      destruct (lookup_shape cd w g domain typeC) as [[E _]|(send & Hr & Hh)].
      * rewrite E in Hi. destruct i; discriminate.
      * rewrite Hr. rewrite Hh in Hi. apply nth_error_In in Hi.
        eapply referral_loop_not_found; eassumption.
    + intros Hn Hlt.
      assert (Href : is_referral h = true).
      { unfold is_referral. rewrite Hm, Ha.
        destruct (ns_targets (Authorities m)); [contradiction|reflexivity]. }
      destruct (lookup_shape cd w g domain typeC) as [[E _]|(send & Hr & Hh)].
      * rewrite E in Hi. destruct i; discriminate.
      * assert (Hnext : exists h',
                   nth_error (hops (lookupResourceListL1 cd w g domain typeC))
                             (S i) = Some h').
        { rewrite Hh. rewrite Hh in Hi.
          eapply referral_loop_next; try eassumption. unfold budget. lia. }
        destruct Hnext as [h' Hh']. exists h'. split; [exact Hh'|].
        destruct (chain_adjacent Hc i h h' Hi Hh') as (m' & Hm' & _ & Hs).
        rewrite Hm in Hm'. inversion Hm'; subst m'. exact Hs.
Qed.

(** The root servers refer to [ns.loop.]: the second hop dials
    ["ns.loop:53"]. *)
Lemma referral_server_sets_witness :
  exists h',
    nth_error (hops (lookupResourceListL1 demo_codec answer_world 0
                                          "example.com" TypeA)) 1
    = Some h'
    /\ hop_servers h' = ["ns.loop:53"].
Proof.
  apply (proj2 (proj2 (proj2 (proj2
           (referral_server_sets demo_codec answer_world 0
                                 "example.com" TypeA)))
           0%nat
           (hd (mkHop 0 [] race0 None None)
               (hops (lookupResourceListL1 demo_codec answer_world 0
                                           "example.com" TypeA)))
           demo_referral
           ltac:(vm_compute; reflexivity)
           ltac:(vm_compute; reflexivity)
           ltac:(reflexivity))).
  - vm_compute. discriminate.
  - vm_compute. reflexivity.
Defined.

(** ** The projections *)

(** A loop that appends what it finds in each element builds the
    concatenation of what it finds. *)
Lemma fold_project {A B} (f : A -> list B) (g : list B -> A -> list B) :
  (forall l a, g l a = l ++ f a) ->
  forall xs acc, fold_left g xs acc = acc ++ flat_map f xs.
Proof.
  intros Hg. induction xs as [|x xs IH]; intros acc; cbn [fold_left flat_map].
  - symmetry. apply app_nil_r.
  - rewrite IH, Hg, <- app_assoc. reflexivity.
Qed.

Ltac project_with f :=
  rewrite (fold_project f); [reflexivity|];
  intros l a; destruct (Body a); cbn [app]; rewrite ?app_nil_r; reflexivity.

Ltac by_projection r records E :=
  let answers := fresh "answerList" in
  cbv zeta; destruct (result r) as [answers| | |];
  cbn [fail_as result returns]; try reflexivity;
  rewrite E; destruct (records answers); reflexivity.

Lemma LookupA_spec (cd : Codec) (w : World) (g : Z) (domain : string) :
  result (LookupA cd w g domain)
  = match result (lookupResourceListL1 cd w g domain TypeA) with
    | Ok answerList =>
      match a_records answerList with
      | [] => Err ErrNotFound
      | l => Ok l
      end
    | o => fail_as o
    end.
Proof.
  unfold LookupA.
  assert (E : forall answerList,
             fold_left (fun l answer => match Body answer with
                                        | AResource a => l ++ [IPv4_String a]
                                        | _ => l
                                        end) answerList []
             = a_records answerList).
  { intros. unfold a_records.
    project_with (fun answer => match Body answer with
                                | AResource a => [IPv4_String a]
                                | _ => []
                                end). }
  by_projection (lookupResourceListL1 cd w g domain TypeA) a_records E.
Qed.

Lemma LookupSOA_spec (cd : Codec) (w : World) (g : Z) (domain : string) :
  result (LookupSOA cd w g domain)
  = match result (lookupResourceListL1 cd w g domain TypeSOA) with
    | Ok answerList =>
      match soa_records answerList with
      | [] => Err ErrNotFound
      | l => Ok l
      end
    | o => fail_as o
    end.
Proof.
  unfold LookupSOA.
  assert (E : forall answerList,
             fold_left (fun l answer => match Body answer with
                                        | SOAResource ns _ _ _ _ _ _ =>
                                          l ++ [TrimSuffix (Name_String ns) "."]
                                        | _ => l
                                        end) answerList []
             = soa_records answerList).
  { intros. unfold soa_records.
    project_with (fun answer => match Body answer with
                                | SOAResource ns _ _ _ _ _ _ =>
                                  [TrimSuffix (Name_String ns) "."]
                                | _ => []
                                end). }
  by_projection (lookupResourceListL1 cd w g domain TypeSOA) soa_records E.
Qed.

Lemma LookupNS_spec (cd : Codec) (w : World) (g : Z) (domain : string) :
  result (LookupNS cd w g domain)
  = match result (lookupResourceListL1 cd w g domain TypeNS) with
    | Ok answerList =>
      match ns_records answerList with
      | [] => Err ErrNotFound
      | l => Ok l
      end
    | o => fail_as o
    end.
Proof.
  unfold LookupNS.
  assert (E : forall answerList,
             fold_left (fun l answer => match Body answer with
                                        | NSResource ns =>
                                          l ++ [TrimSuffix (Name_String ns) "."]
                                        | _ => l
                                        end) answerList []
             = ns_records answerList).
  { intros. unfold ns_records.
    project_with (fun answer => match Body answer with
                                | NSResource ns =>
                                  [TrimSuffix (Name_String ns) "."]
                                | _ => []
                                end). }
  by_projection (lookupResourceListL1 cd w g domain TypeNS) ns_records E.
Qed.

Lemma LookupTXT_spec (cd : Codec) (w : World) (g : Z) (domain : string) :
  result (LookupTXT cd w g domain)
  = match result (lookupResourceListL1 cd w g domain TypeTXT) with
    | Ok answerList =>
      match txt_records answerList with
      | [] => Err ErrNotFound
      | l => Ok l
      end
    | o => fail_as o
    end.
Proof.
  unfold LookupTXT.
  assert (E : forall answerList,
             fold_left (fun l answer => match Body answer with
                                        | TXTResource txt => l ++ txt
                                        | _ => l
                                        end) answerList []
             = txt_records answerList).
  { intros. unfold txt_records.
    project_with (fun answer => match Body answer with
                                | TXTResource txt => txt
                                | _ => []
                                end). }
  by_projection (lookupResourceListL1 cd w g domain TypeTXT) txt_records E.
Qed.

Lemma mx_loop_spec (answerList : list Resource) :
  fold_left (fun l answer => match Body answer with
                             | MXResource pref mx =>
                               l ++ [mkMX (Name_String mx) pref]
                             | _ => l
                             end) answerList []
  = mx_records answerList.
Proof.
  unfold mx_records.
  project_with (fun answer => match Body answer with
                              | MXResource pref mx =>
                                [mkMX (Name_String mx) pref]
                              | _ => []
                              end).
Qed.

Lemma LookupMX_spec (cd : Codec) (w : World) (g : Z) (domain : string) :
  result (LookupMX cd w g domain)
  = match result (lookupResourceListL1 cd w g domain TypeMX) with
    | Ok answerList =>
      match mx_records answerList with
      | [] => Err ErrNotFound
      | l => Ok (sort_Slice mx_less l)
      end
    | o => fail_as o
    end.
Proof.
  unfold LookupMX.
  by_projection (lookupResourceListL1 cd w g domain TypeMX) mx_records
                mx_loop_spec.
Qed.

(** ** The query of a call *)

(** A call builds a query exactly when the absolute form of the domain
    is a name for the codec; the query asks for that name with the
    type and the class IN, under the identifier taken from the counter,
    and the counter has moved by one. *)
Lemma lookup_query (cd : Codec) (w : World) (g : Z) (domain : string)
      (typeC : RType) :
  match NewName cd (absolute domain) with
  | Success name =>
    query (lookupResourceListL1 cd w g domain typeC)
    = Some (query_for (uint16 (AddUint32 g 1)) name typeC)
    /\ lookupId (lookupResourceListL1 cd w g domain typeC) = AddUint32 g 1
  | Failure e =>
    query (lookupResourceListL1 cd w g domain typeC) = None
    /\ lookupId (lookupResourceListL1 cd w g domain typeC) = g
    /\ result (lookupResourceListL1 cd w g domain typeC) = Err e
  end.
Proof.
  unfold lookupResourceListL1, absolute.
  destruct (HasSuffix domain "."); cbn [negb];
    (destruct (NewName cd _) as [name|e]; [|repeat split]);
    (destruct (Pack cd _) as [send|e]; [|split; reflexivity]);
    destruct (referral_loop cd w send budget 0 gRootServers);
    split; reflexivity.
Qed.

Lemma string_length_append (a b : string) :
  String.length (a ++ b) = (String.length a + String.length b)%nat.
Proof.
  induction a as [|c a IH]; cbn [String.append String.length];
    [reflexivity | rewrite IH; reflexivity].
Qed.

Lemma substring_last_dot (s : string) :
  substring (String.length s) 1 (s ++ ".") = ".".
Proof.
  induction s as [|c s IH]; [reflexivity|].
  cbn [String.length String.append substring]. exact IH.
Qed.

Lemma HasSuffix_append_dot (s : string) : HasSuffix (s ++ ".") "." = true.
Proof.
  unfold HasSuffix. rewrite string_length_append.
  cbn [String.length].
  replace (String.length s + 1 - 1)%nat with (String.length s) by lia.
  rewrite substring_last_dot.
  replace (1 <=? String.length s + 1)%nat with true
    by (symmetry; apply Nat.leb_le; lia).
  reflexivity.
Qed.

Lemma absolute_has_dot (domain : string) :
  HasSuffix (absolute domain) "." = true.
Proof.
  unfold absolute. destruct (HasSuffix domain ".") eqn:E; [exact E|].
  apply HasSuffix_append_dot.
Qed.

Lemma absolute_idempotent (domain : string) :
  absolute (absolute domain) = absolute domain.
Proof.
  unfold absolute at 1. rewrite absolute_has_dot. reflexivity.
Qed.

(** A call depends on the domain through its absolute form only. *)
Lemma lookup_absolute (cd : Codec) (w : World) (g : Z) (domain : string)
      (typeC : RType) :
  lookupResourceListL1 cd w g domain typeC
  = lookupResourceListL1 cd w g (absolute domain) typeC.
Proof.
  unfold lookupResourceListL1.
  rewrite absolute_has_dot. cbn [negb].
  unfold absolute. destruct (HasSuffix domain "."); reflexivity.
Qed.

(** ** CNAME *)

Lemma cname_loop_spec (answerList : list Resource) :
  cname_loop answerList ""
  = match find named (cname_records answerList) with
    | Some n => n
    | None => ""
    end.
Proof.
  induction answerList as [|answer rest IH]; [reflexivity|].
  cbn [cname_loop]. unfold cname_records. cbn [flat_map].
  fold (cname_records rest).
  destruct (Body answer); cbn [app find]; try exact IH.
  unfold named at 1.
  destruct (String.eqb_spec (Name_String CNAME) "") as [E|E]; cbn [negb].
  - rewrite E. exact IH.
  - reflexivity.
Qed.

Lemma LookupCNAME_spec (cd : Codec) (w : World) (g : Z) (domain : string) :
  result (LookupCNAME cd w g domain)
  = match result (lookupResourceListL1 cd w g domain TypeTXT) with
    | Ok answerList =>
      match find named (cname_records answerList) with
      | Some n => Ok n
      | None => Err ErrNotFound
      end
    | o => fail_as o
    end.
Proof.
  unfold LookupCNAME. cbv zeta.
  destruct (result (lookupResourceListL1 cd w g domain TypeTXT))
    as [answerList| | |]; cbn [fail_as result returns]; try reflexivity.
  rewrite cname_loop_spec.
  destruct (find named (cname_records answerList)) as [n|] eqn:E.
  - apply find_some in E. destruct E as [_ E]. unfold named in E.
    destruct (n =? "")%string; [discriminate E|reflexivity].
  - reflexivity.
Qed.

Lemma find_first {A} (p : A -> bool) (before : list A) (x : A)
      (after : list A) :
  Forall (fun y => p y = false) before -> p x = true ->
  find p (before ++ x :: after) = Some x.
Proof.
  induction 1 as [|y before Hy _ IH]; intros Hx; cbn [app find].
  - rewrite Hx. reflexivity.
  - rewrite Hy. apply IH, Hx.
Qed.

Lemma find_none_all {A} (p : A -> bool) (l : list A) :
  Forall (fun y => p y = false) l -> find p l = None.
Proof.
  induction 1 as [|y l Hy _ IH]; cbn [find]; [reflexivity|].
  rewrite Hy. exact IH.
Qed.

(** ** Claims on the projections *)

(** C3.  A successful return of a lookup operation carries a result
    that is not empty: a list with an element, or for [LookupCNAME] a
    string with a character.  When the engine returns answers and the
    projection of the answers is empty, the operation fails with
    [ErrNotFound]. *)
Theorem lookup_never_empty (cd : Codec) (w : World) (g : Z) (domain : string) :
  ((forall l, result (LookupA cd w g domain) = Ok l -> l <> [])
   /\ (forall l, result (LookupSOA cd w g domain) = Ok l -> l <> [])
   /\ (forall l, result (LookupNS cd w g domain) = Ok l -> l <> [])
   /\ (forall l, result (LookupTXT cd w g domain) = Ok l -> l <> [])
   /\ (forall s, result (LookupCNAME cd w g domain) = Ok s -> s <> "")
   /\ (forall l, result (LookupMX cd w g domain) = Ok l -> l <> []))
  /\ ((forall answerList,
          result (lookupResourceListL1 cd w g domain TypeA) = Ok answerList ->
          a_records answerList = [] ->
          result (LookupA cd w g domain) = Err ErrNotFound)
      /\ (forall answerList,
             result (lookupResourceListL1 cd w g domain TypeSOA)
             = Ok answerList ->
             soa_records answerList = [] ->
             result (LookupSOA cd w g domain) = Err ErrNotFound)
      /\ (forall answerList,
             result (lookupResourceListL1 cd w g domain TypeNS)
             = Ok answerList ->
             ns_records answerList = [] ->
             result (LookupNS cd w g domain) = Err ErrNotFound)
      /\ (forall answerList,
             result (lookupResourceListL1 cd w g domain TypeTXT)
             = Ok answerList ->
             txt_records answerList = [] ->
             result (LookupTXT cd w g domain) = Err ErrNotFound)
      /\ (forall answerList,
             result (lookupResourceListL1 cd w g domain TypeTXT)
             = Ok answerList ->
             Forall (fun n => n = "") (cname_records answerList) ->
             result (LookupCNAME cd w g domain) = Err ErrNotFound)
      /\ (forall answerList,
             result (lookupResourceListL1 cd w g domain TypeMX)
             = Ok answerList ->
             mx_records answerList = [] ->
             result (LookupMX cd w g domain) = Err ErrNotFound)).
Proof.
  split; repeat match goal with |- _ /\ _ => split end.
  - intros l. rewrite LookupA_spec.
    destruct (result _) as [answers| | |]; try discriminate.
    destruct (a_records answers); [discriminate|].
    intros E; inversion E; subst; discriminate.
  - intros l. rewrite LookupSOA_spec.
    destruct (result _) as [answers| | |]; try discriminate.
    destruct (soa_records answers); [discriminate|].
    intros E; inversion E; subst; discriminate.
  - intros l. rewrite LookupNS_spec.
    destruct (result _) as [answers| | |]; try discriminate.
    destruct (ns_records answers); [discriminate|].
    intros E; inversion E; subst; discriminate.
  - intros l. rewrite LookupTXT_spec.
    destruct (result _) as [answers| | |]; try discriminate.
    destruct (txt_records answers); [discriminate|].
    intros E; inversion E; subst; discriminate.
  - intros s. rewrite LookupCNAME_spec.
    destruct (result _) as [answers| | |]; try discriminate.
    destruct (find named (cname_records answers)) as [n|] eqn:F;
      [|discriminate].
    intros E; inversion E; subst. apply find_some in F.
    destruct F as [_ F]. unfold named in F. intros ->. discriminate F.
  - intros l. rewrite LookupMX_spec.
    destruct (result _) as [answers| | |]; try discriminate.
    destruct (mx_records answers) as [|x xs] eqn:M; [discriminate|].
    intros E; inversion E; subst. intros Hnil.
    apply (f_equal (@length MX)) in Hnil.
    unfold sort_Slice in Hnil. rewrite length_rev in Hnil.
    cbn [fold_left sink] in Hnil.
    assert (Hlen : forall l acc,
               length (fold_left (fun before x0 => sink mx_less x0 before) l acc)
               = (length l + length acc)%nat).
    { clear. induction l as [|y l IH]; intros acc; cbn [fold_left length].
      - reflexivity.
      - rewrite IH.
        assert (Hs : forall b, length (sink mx_less y b) = S (length b)).
        { induction b as [|z b IHb]; cbn [sink length]; [reflexivity|].
          destruct (mx_less y z); cbn [length]; [rewrite IHb|]; reflexivity. }
        rewrite Hs. lia. }
    rewrite Hlen in Hnil. cbn [length] in Hnil. lia.
  - intros answers E Hp. rewrite LookupA_spec, E, Hp. reflexivity.
  - intros answers E Hp. rewrite LookupSOA_spec, E, Hp. reflexivity.
  - intros answers E Hp. rewrite LookupNS_spec, E, Hp. reflexivity.
  - intros answers E Hp. rewrite LookupTXT_spec, E, Hp. reflexivity.
  - intros answers E Hp. rewrite LookupCNAME_spec, E.
    rewrite find_none_all; [reflexivity|].
    eapply Forall_impl; [|exact Hp]. intros n ->. reflexivity.
  - intros answers E Hp. rewrite LookupMX_spec, E, Hp. reflexivity.
Qed.

(** The servers answer with an address record; a lookup of the NS
    records then finds nothing. *)
Lemma lookup_never_empty_witness :
  result (LookupNS demo_codec (root_world [x01]) 0 "example.com")
  = Err ErrNotFound.
Proof.
  apply (proj1 (proj2 (proj2 (proj2
           (lookup_never_empty demo_codec (root_world [x01]) 0
                               "example.com"))))
           [demo_answer]).
  - vm_compute. reflexivity.
  - reflexivity.
Defined.

(** C5.  [LookupCNAME] asks the engine for the type TXT: the query it
    builds has one question, of type [TypeTXT], and its trace is the
    trace of that call of the engine.  From the answers it returns the
    name of the first CNAME record whose name is not empty, as it
    stands, the final dot included; when no CNAME record has a name
    that is not empty it fails with [ErrNotFound].  So the answers
    [CNAME(""), CNAME("alias.example.com.")] give
    ["alias.example.com."], and the answers [CNAME("")] give
    [ErrNotFound]. *)
Theorem LookupCNAME_behaviour (cd : Codec) (w : World) (g : Z)
        (domain : string) :
  (forall m, query (LookupCNAME cd w g domain) = Some m ->
             map QType (Questions m) = [TypeTXT])
  /\ (query (LookupCNAME cd w g domain)
      = query (lookupResourceListL1 cd w g domain TypeTXT)
      /\ hops (LookupCNAME cd w g domain)
         = hops (lookupResourceListL1 cd w g domain TypeTXT))
  /\ (forall answerList,
         result (lookupResourceListL1 cd w g domain TypeTXT) = Ok answerList ->
         (forall before n after,
             cname_records answerList = before ++ n :: after ->
             Forall (fun x => x = "") before -> n <> "" ->
             result (LookupCNAME cd w g domain) = Ok n)
         /\ (Forall (fun x => x = "") (cname_records answerList) ->
             result (LookupCNAME cd w g domain) = Err ErrNotFound)
         /\ (map Body answerList
             = [CNAMEResource (mkName "");
                CNAMEResource (mkName "alias.example.com.")] ->
             result (LookupCNAME cd w g domain) = Ok "alias.example.com.")
         /\ (map Body answerList = [CNAMEResource (mkName "")] ->
             result (LookupCNAME cd w g domain) = Err ErrNotFound)).
Proof.
  assert (Htrace : query (LookupCNAME cd w g domain)
                   = query (lookupResourceListL1 cd w g domain TypeTXT)
                   /\ hops (LookupCNAME cd w g domain)
                      = hops (lookupResourceListL1 cd w g domain TypeTXT)).
  { unfold LookupCNAME. cbv zeta.
    destruct (result (lookupResourceListL1 cd w g domain TypeTXT));
      try (split; reflexivity).
    destruct (cname_loop a "" =? "")%string; split; reflexivity. }
  split; [|split; [exact Htrace|]].
  - intros m. rewrite (proj1 Htrace).
    pose proof (lookup_query cd w g domain TypeTXT) as Hq.
    destruct (NewName cd (absolute domain)) as [name|e].
    + destruct Hq as [-> _]. intros E; inversion E; subst. reflexivity.
    + destruct Hq as [-> _]. discriminate.
  - intros answers E.
    assert (Hfirst : forall before n after,
               cname_records answers = before ++ n :: after ->
               Forall (fun x => x = "") before -> n <> "" ->
               result (LookupCNAME cd w g domain) = Ok n).
    { intros before n after Hc Hb Hn.
      rewrite LookupCNAME_spec, E, Hc, find_first; [reflexivity| |].
      - eapply Forall_impl; [|exact Hb]. intros x ->. reflexivity.
      - unfold named. destruct (String.eqb_spec n ""); [contradiction|].
        reflexivity. }
    assert (Hnone : Forall (fun x => x = "") (cname_records answers) ->
                    result (LookupCNAME cd w g domain) = Err ErrNotFound).
    { intros Hall. rewrite LookupCNAME_spec, E, find_none_all; [reflexivity|].
      eapply Forall_impl; [|exact Hall]. intros x ->. reflexivity. }
    split; [exact Hfirst|]. split; [exact Hnone|]. split.
    + intros Hb. apply (Hfirst [""] "alias.example.com." []).
      * destruct answers as [|a1 [|a2 [|a3 rest]]]; try discriminate Hb.
        inversion Hb as [[H1 H2]]. unfold cname_records. cbn [flat_map].
        rewrite H1, H2. reflexivity.
      * constructor; [reflexivity|constructor].
      * discriminate.
    + intros Hb. apply Hnone.
      destruct answers as [|a1 [|a2 rest]]; try discriminate Hb.
      inversion Hb as [H1]. unfold cname_records. cbn [flat_map].
      rewrite H1. cbn [app]. constructor; [reflexivity|constructor].
Qed.

(** The servers answer with the two CNAME records of the example. *)
Lemma LookupCNAME_behaviour_witness :
  result (LookupCNAME demo_codec (root_world [x04]) 0 "example.com")
  = Ok "alias.example.com.".
Proof.
  apply (proj1 (proj2 (proj2
           (proj2 (proj2 (LookupCNAME_behaviour demo_codec (root_world [x04]) 0
                                                "example.com"))
                  demo_alias ltac:(vm_compute; reflexivity))))).
  reflexivity.
Defined.

(** ** Claims on the query *)

(** C9, as the code has it.  Two calls of one process never issue the
    same query: the second carries the next identifier, and its packed
    bytes differ. *)
Lemma lookup_trailing_dot_counterexample :
  map query
      (session demo_codec
               [ (answer_world, "example.com", TypeA);
                 (answer_world, "example.com.", TypeA) ] 0)
  = [ Some (query_for 1 (mkName "example.com.") TypeA);
      Some (query_for 2 (mkName "example.com.") TypeA) ]
  /\ query_for 1 (mkName "example.com.") TypeA
     <> query_for 2 (mkName "example.com.") TypeA
  /\ Pack demo_codec (query_for 1 (mkName "example.com.") TypeA)
     <> Pack demo_codec (query_for 2 (mkName "example.com.") TypeA).
Proof.
  split; [vm_compute; reflexivity|].
  split; intros H; vm_compute in H; discriminate H.
Qed.

(** C9, amended.  A domain written without the final dot is given the
    dot before the name is made, so the call for it and a call for the
    same domain written with the dot build queries for the same name,
    the name the codec makes of the dotted form, with the same type,
    class and flags: the queries differ in the identifier only, which
    is the counter of the process after its increment.  Whenever the
    codec accepts the name, each call builds its query; the call that
    follows in the same process carries the next identifier.  From the
    same value of the counter the two calls are the same run: the
    same message, the same packed bytes, the same hops and result.
    When the codec refuses the name, both calls fail with its error
    and build no query. *)
Theorem lookup_trailing_dot (cd : Codec) (w w' : World) (g g' : Z)
        (domain : string) (typeC : RType) :
  HasSuffix domain "." = false ->
  lookupResourceListL1 cd w g domain typeC
  = lookupResourceListL1 cd w g (domain ++ ".") typeC
  /\ HasSuffix (domain ++ ".") "." = true
  /\ (forall name,
         NewName cd (domain ++ ".") = Success name ->
         query (lookupResourceListL1 cd w g domain typeC)
         = Some (query_for (uint16 (AddUint32 g 1)) name typeC)
         /\ query (lookupResourceListL1 cd w' g' (domain ++ ".") typeC)
            = Some (query_for (uint16 (AddUint32 g' 1)) name typeC)
         /\ query (lookupResourceListL1
                     cd w' (lookupId (lookupResourceListL1 cd w g domain typeC))
                     (domain ++ ".") typeC)
            = Some (query_for (uint16 (AddUint32 (AddUint32 g 1) 1))
                              name typeC))
  /\ (forall e,
         NewName cd (domain ++ ".") = Failure e ->
         (query (lookupResourceListL1 cd w g domain typeC) = None
          /\ result (lookupResourceListL1 cd w g domain typeC) = Err e)
         /\ (query (lookupResourceListL1 cd w' g' (domain ++ ".") typeC) = None
             /\ result (lookupResourceListL1 cd w' g' (domain ++ ".") typeC)
                = Err e)).
Proof.
  intros Hd.
  assert (Ha : absolute domain = (domain ++ ".")%string)
    by (unfold absolute; rewrite Hd; reflexivity).
  assert (Ha' : absolute (domain ++ ".") = (domain ++ ".")%string)
    by (unfold absolute; rewrite HasSuffix_append_dot; reflexivity).
  assert (E : lookupResourceListL1 cd w g domain typeC
              = lookupResourceListL1 cd w g (domain ++ ".") typeC).
  { rewrite (lookup_absolute cd w g domain typeC), Ha. reflexivity. }
  split; [exact E|]. split; [apply HasSuffix_append_dot|]. split.
  - intros name Hn.
    pose proof (lookup_query cd w g domain typeC) as Hq.
    rewrite Ha, Hn in Hq. destruct Hq as [Hq Hid].
    split; [exact Hq|]. split.
    + pose proof (lookup_query cd w' g' (domain ++ ".") typeC) as Hq'.
      rewrite Ha', Hn in Hq'. apply Hq'.
    + rewrite Hid.
      pose proof (lookup_query cd w' (AddUint32 g 1) (domain ++ ".") typeC)
        as Hq'.
      rewrite Ha', Hn in Hq'. apply Hq'.
  - intros e He. split.
    + pose proof (lookup_query cd w g domain typeC) as Hq.
      rewrite Ha, He in Hq. destruct Hq as (Hq & _ & Hr).
      split; assumption.
    + pose proof (lookup_query cd w' g' (domain ++ ".") typeC) as Hq'.
      rewrite Ha', He in Hq'. destruct Hq' as (Hq' & _ & Hr').
      split; assumption.
Qed.

(** [example.com] and [example.com.], type A: from the counter 0 each
    builds the query with the identifier 1 for the name
    [example.com.]. *)
Lemma lookup_trailing_dot_witness :
  lookupResourceListL1 demo_codec answer_world 0 "example.com" TypeA
  = lookupResourceListL1 demo_codec answer_world 0 "example.com." TypeA
  /\ query (lookupResourceListL1 demo_codec answer_world 0
                                 "example.com" TypeA)
     = Some (query_for 1 (mkName "example.com.") TypeA)
  /\ query (lookupResourceListL1 demo_codec loop_world 0
                                 "example.com." TypeA)
     = Some (query_for 1 (mkName "example.com.") TypeA).
Proof.
  destruct (lookup_trailing_dot demo_codec answer_world loop_world 0 0
                                "example.com" TypeA eq_refl)
    as (E & _ & Hq & _).
  destruct (Hq (mkName "example.com.") eq_refl) as (H1 & H2 & _).
  split; [exact E|]. split; [exact H1|exact H2].
Defined.

(** The identifier of the query that follows a value of the counter. *)
Lemma lookup_id (cd : Codec) (w : World) (g : Z) (domain : string)
      (typeC : RType) (m : Message) :
  query (lookupResourceListL1 cd w g domain typeC) = Some m ->
  ID (MHeader m) = uint16 (uint32 (g + 1))
  /\ lookupId (lookupResourceListL1 cd w g domain typeC) = uint32 (g + 1).
Proof.
  intros Hm. pose proof (lookup_query cd w g domain typeC) as Hq.
  destruct (NewName cd (absolute domain)) as [name|e].
  - destruct Hq as [Hq Hid]. rewrite Hq in Hm. inversion Hm; subst m.
    split; [reflexivity|exact Hid].
  - destruct Hq as [Hq _]. rewrite Hq in Hm. discriminate Hm.
Qed.

Lemma lookup_no_query (cd : Codec) (w : World) (g : Z) (domain : string)
      (typeC : RType) :
  query (lookupResourceListL1 cd w g domain typeC) = None ->
  lookupId (lookupResourceListL1 cd w g domain typeC) = g.
Proof.
  intros Hm. pose proof (lookup_query cd w g domain typeC) as Hq.
  destruct (NewName cd (absolute domain)) as [name|e].
  - destruct Hq as [Hq _]. rewrite Hq in Hm. discriminate Hm.
  - destruct Hq as (_ & Hid & _). exact Hid.
Qed.

(** The low 16 bits of a 32-bit value are the low 16 bits of the
    number it wraps. *)
Lemma uint16_uint32 (z : Z) : uint16 (uint32 z) = uint16 z.
Proof.
  unfold uint16, uint32.
  change 4294967296 with (65536 * 65536).
  rewrite Z.rem_mul_r by lia.
  rewrite Z.add_mod by lia.
  rewrite Z.mul_comm, Z.mod_mul, Z.add_0_r, !Z.mod_mod by lia.
  reflexivity.
Qed.

(** The identifiers of a session that starts from a value [g] of the
    counter: the query number [k], counted from 0, has the low 16 bits
    of [g + k + 1]. *)
Lemma session_ids (cd : Codec) (calls : list (World * string * RType)) :
  forall g k id,
    nth_error (query_ids (session cd calls g)) k = Some id ->
    id = uint16 (g + Z.of_nat k + 1).
Proof.
  induction calls as [|[[w domain] typeC] calls IH]; intros g k id.
  - destruct k; discriminate.
  - cbn [session]. unfold query_ids. cbn [flat_map].
    fold (query_ids (session cd calls
                             (lookupId (lookupResourceListL1 cd w g domain
                                                             typeC)))).
    destruct (query (lookupResourceListL1 cd w g domain typeC)) as [m|] eqn:Q.
    + destruct (lookup_id cd w g domain typeC m Q) as [Hid Hg].
      rewrite Hg. destruct k as [|k]; cbn [app nth_error].
      * intros E; inversion E; subst id. rewrite Hid, uint16_uint32.
        f_equal. lia.
      * intros E. apply IH in E. rewrite E.
        unfold uint16, uint32.
        change 4294967296 with (65536 * 65536).
        rewrite Z.rem_mul_r by lia.
        replace ((g + 1) mod 65536 + 65536 * ((g + 1) / 65536 mod 65536)
                 + Z.of_nat k + 1)
          with ((g + 1) mod 65536 + Z.of_nat k + 1
                + ((g + 1) / 65536 mod 65536) * 65536) by lia.
        rewrite Z.mod_add by lia.
        replace (g + Z.of_nat (S k) + 1) with ((g + 1) + (Z.of_nat k + 1))
          by lia.
        rewrite (Z.add_mod (g + 1) (Z.of_nat k + 1)) by lia.
        replace ((g + 1) mod 65536 + Z.of_nat k + 1)
          with ((g + 1) mod 65536 + (Z.of_nat k + 1)) by lia.
        rewrite (Z.add_mod ((g + 1) mod 65536) (Z.of_nat k + 1)) by lia.
        rewrite Z.mod_mod by lia. reflexivity.
    + rewrite (lookup_no_query cd w g domain typeC Q). cbn [app].
      apply IH.
Qed.

(** C10.  The identifier of a query is the low 16 bits of the counter
    after its increment, and the counter is kept in 32 bits.  In a
    process, where the counter starts at 0, the queries carry the
    identifiers 1, 2, 3, ...: the first carries 1, and the query number
    [k], counted from 0, carries [(k + 1) mod 65536], so two queries
    that are 65536 apart carry the same identifier. *)
Theorem query_identifiers (cd : Codec) (calls : list (World * string * RType)) :
  (forall w g domain typeC m,
      query (lookupResourceListL1 cd w g domain typeC) = Some m ->
      ID (MHeader m) = ((g + 1) mod 4294967296) mod 65536
      /\ lookupId (lookupResourceListL1 cd w g domain typeC)
         = (g + 1) mod 4294967296)
  /\ (forall k id,
         nth_error (query_ids (session cd calls 0)) k = Some id ->
         id = (Z.of_nat k + 1) mod 65536)
  /\ (forall id, nth_error (query_ids (session cd calls 0)) 0 = Some id ->
                 id = 1)
  /\ (forall k id id',
         nth_error (query_ids (session cd calls 0)) k = Some id ->
         nth_error (query_ids (session cd calls 0)) (k + Z.to_nat 65536)
         = Some id' ->
         id = id').
Proof.
  split; [|split; [|split]].
  - intros w g domain typeC m Hm. apply (lookup_id cd w g domain typeC m Hm).
  - intros k id Hk. apply session_ids in Hk. rewrite Hk. reflexivity.
  - intros id Hk. apply session_ids in Hk. rewrite Hk. reflexivity.
  - intros k id id' Hk Hk'. apply session_ids in Hk, Hk'.
    rewrite Hk, Hk'. unfold uint16.
    rewrite Nat2Z.inj_add, Z2Nat.id by lia.
    replace (0 + (Z.of_nat k + 65536) + 1)
      with (0 + Z.of_nat k + 1 + 1 * 65536) by lia.
    rewrite Z.mod_add by lia. reflexivity.
Qed.

(** Three calls from the start of a process; the second is for a name
    the codec refuses, and takes no identifier. *)
Lemma query_identifiers_witness :
  query_ids
    (session demo_codec
             [ (dead_world, "example.com", TypeA);
               (dead_world,
                String.concat "" (repeat "0123456789abcdef" 16), TypeA);
               (dead_world, "example.org", TypeMX) ] 0)
  = [1; 2].
Proof.
  pose proof (query_identifiers demo_codec
                [ (dead_world, "example.com", TypeA);
                  (dead_world,
                   String.concat "" (repeat "0123456789abcdef" 16), TypeA);
                  (dead_world, "example.org", TypeMX) ]) as (_ & H & _).
  pose proof (H 0%nat) as H0. pose proof (H 1%nat) as H1.
  destruct (query_ids _) as [|a [|b [|c rest]]] eqn:E;
    vm_compute in E; try discriminate E.
  rewrite (H0 a eq_refl), (H1 b eq_refl). reflexivity.
Defined.

(** ** The order of MX records *)

Lemma ascii_compare_eq (x y : ascii) : Ascii.compare x y = Eq -> x = y.
Proof. apply Ascii.compare_eq_iff. Qed.

(** The lexicographic order of strings is transitive. *)
Lemma string_compare_trans (a : string) :
  forall b c,
    (a ?= b)%string <> Gt -> (b ?= c)%string <> Gt -> (a ?= c)%string <> Gt.
Proof.
  induction a as [|x a IH]; intros [|y b] [|z c]; cbn [String.compare];
    try congruence.
  destruct (Ascii.compare x y) eqn:Exy; try congruence;
    destruct (Ascii.compare y z) eqn:Eyz; try congruence.
  - apply ascii_compare_eq in Exy, Eyz. subst y z.
    replace (Ascii.compare x x) with Eq; [apply IH|].
    symmetry. unfold Ascii.compare. apply N.compare_refl.
  - apply ascii_compare_eq in Exy. subst y. rewrite Eyz. congruence.
  - apply ascii_compare_eq in Eyz. subst z. rewrite Exy. congruence.
  - unfold Ascii.compare in *.
    rewrite N.compare_lt_iff in Exy, Eyz.
    pose proof (N.lt_trans _ _ _ Exy Eyz) as H.
    apply N.compare_lt_iff in H. rewrite H. congruence.
Qed.

Lemma string_leb_trans (a b c : string) :
  (a <=? b)%string = true -> (b <=? c)%string = true ->
  (a <=? c)%string = true.
Proof.
  unfold String.leb. intros Hab Hbc.
  pose proof (string_compare_trans a b c) as H.
  destruct (a ?= b)%string; try discriminate Hab;
    destruct (b ?= c)%string; try discriminate Hbc;
      destruct (a ?= c)%string; try reflexivity;
        exfalso; apply H; congruence.
Qed.

Lemma string_ltb_leb (a b : string) :
  (a <? b)%string = true -> (a <=? b)%string = true.
Proof.
  unfold String.ltb, String.leb. destruct (a ?= b)%string; congruence.
Qed.

Lemma string_nltb_leb (a b : string) :
  (a <? b)%string = false -> (b <=? a)%string = true.
Proof.
  unfold String.ltb, String.leb. rewrite (String.compare_antisym b a).
  destruct (a ?= b)%string; cbn [CompOpp]; congruence.
Qed.

Lemma mx_less_ord (a b : MX) : mx_less a b = true -> mx_ord a b.
Proof.
  unfold mx_less, mx_ord.
  destruct (Z.eqb_spec (MXPref a) (MXPref b)) as [E|E]; cbn [negb].
  - intros H. right. split; [exact E|apply string_ltb_leb, H].
  - intros H. left. apply Z.gtb_lt in H. lia.
Qed.

Lemma mx_not_less_ord (a b : MX) : mx_less a b = false -> mx_ord b a.
Proof.
  unfold mx_less, mx_ord.
  destruct (Z.eqb_spec (MXPref a) (MXPref b)) as [E|E]; cbn [negb].
  - intros H. right. split; [symmetry; exact E|apply string_nltb_leb, H].
  - intros H. left. destruct (Z.gtb_spec (MXPref a) (MXPref b)); [discriminate|].
    lia.
Qed.

Lemma mx_ord_trans (a b c : MX) : mx_ord a b -> mx_ord b c -> mx_ord a c.
Proof.
  unfold mx_ord. intros [H1|[E1 L1]] [H2|[E2 L2]].
  - left. lia.
  - left. lia.
  - left. lia.
  - right. split; [lia|]. eapply string_leb_trans; eassumption.
Qed.

Lemma mx_ord_antisym (a b : MX) : mx_ord a b -> mx_ord b a -> a = b.
Proof.
  unfold mx_ord. intros [H1|[E1 L1]] [H2|[E2 L2]]; try lia.
  destruct a as [ha pa], b as [hb pb]. cbn [Host MXPref] in *.
  rewrite (String.leb_antisym ha hb L1 L2), E1. reflexivity.
Qed.

(** ** Sorting by insertion *)

Lemma sink_perm {A} (less : A -> A -> bool) (x : A) (before : list A) :
  Permutation (sink less x before) (x :: before).
Proof.
  induction before as [|y rest IH]; cbn [sink]; [reflexivity|].
  destruct (less x y); [|reflexivity].
  etransitivity; [apply perm_skip, IH|apply perm_swap].
Qed.

(** The part before the element is kept nearest first, so it is sorted
    for the converse order. *)
Lemma sink_sorted (x : MX) (before : list MX) :
  StronglySorted (fun a b => mx_ord b a) before ->
  StronglySorted (fun a b => mx_ord b a) (sink mx_less x before).
Proof.
  induction 1 as [|y rest Hs IH Hy]; cbn [sink].
  - constructor; constructor.
  - destruct (mx_less x y) eqn:L.
    + constructor; [exact IH|].
      rewrite Forall_forall. intros z Hz.
      apply (Permutation_in _ (sink_perm mx_less x rest)) in Hz.
      destruct Hz as [<-|Hz].
      * apply mx_less_ord, L.
      * rewrite Forall_forall in Hy. apply Hy, Hz.
    + constructor; [constructor; assumption|].
      constructor; [apply mx_not_less_ord, L|].
      rewrite Forall_forall in *. intros z Hz.
      eapply mx_ord_trans; [apply Hy, Hz|apply mx_not_less_ord, L].
Qed.

Lemma insertion_perm {A} (less : A -> A -> bool) (l : list A) :
  forall before,
    Permutation (fold_left (fun before x => sink less x before) l before)
                (l ++ before).
Proof.
  induction l as [|x l IH]; intros before; cbn [fold_left app].
  - reflexivity.
  - rewrite IH. etransitivity; [apply Permutation_app_head, sink_perm|].
    symmetry. apply Permutation_middle.
Qed.

Lemma insertion_sorted (l : list MX) :
  forall before,
    StronglySorted (fun a b => mx_ord b a) before ->
    StronglySorted (fun a b => mx_ord b a)
                   (fold_left (fun before x => sink mx_less x before) l before).
Proof.
  induction l as [|x l IH]; intros before Hb; cbn [fold_left].
  - exact Hb.
  - apply IH, sink_sorted, Hb.
Qed.

Lemma sorted_app {A} (R : A -> A -> Prop) (l1 l2 : list A) :
  StronglySorted R l1 -> StronglySorted R l2 ->
  (forall a b, In a l1 -> In b l2 -> R a b) ->
  StronglySorted R (l1 ++ l2).
Proof.
  induction 1 as [|x l1 Hs IH Hx]; intros H2 Hc; cbn [app]; [exact H2|].
  constructor.
  - apply IH; [exact H2|]. intros a b Ha Hb. apply Hc; [right|]; assumption.
  - rewrite Forall_forall in *. intros z Hz. apply in_app_or in Hz.
    destruct Hz as [Hz|Hz]; [apply Hx, Hz|apply Hc; [left; reflexivity|exact Hz]].
Qed.

Lemma sorted_rev {A} (R : A -> A -> Prop) (l : list A) :
  StronglySorted (fun a b => R b a) l -> StronglySorted R (rev l).
Proof.
  induction 1 as [|x l Hs IH Hx]; cbn [rev]; [constructor|].
  apply sorted_app; [exact IH|constructor; constructor|].
  intros a b Ha [<-|[]]. rewrite Forall_forall in Hx.
  apply Hx, in_rev, Ha.
Qed.

(** [sort.Slice] with [mx_less]: a permutation, sorted. *)
Lemma sort_Slice_mx (l : list MX) :
  Permutation (sort_Slice mx_less l) l
  /\ StronglySorted mx_ord (sort_Slice mx_less l).
Proof.
  unfold sort_Slice. split.
  - rewrite <- Permutation_rev, insertion_perm, app_nil_r. reflexivity.
  - apply sorted_rev, insertion_sorted. constructor.
Qed.

(** A list has one sorted permutation: whichever way the library
    sorts, the result is the same. *)
Lemma mx_sorted_unique (l1 : list MX) :
  forall l2,
    Permutation l1 l2 -> StronglySorted mx_ord l1 -> StronglySorted mx_ord l2 ->
    l1 = l2.
Proof.
  induction l1 as [|x l1 IH]; intros l2 Hp H1 H2.
  - apply Permutation_nil in Hp. symmetry. exact Hp.
  - destruct l2 as [|y l2].
    + symmetry in Hp. apply Permutation_nil in Hp. discriminate Hp.
    + inversion H1 as [|? ? Hs1 Hx]; subst.
      inversion H2 as [|? ? Hs2 Hy]; subst.
      rewrite Forall_forall in Hx, Hy.
      assert (Exy : x = y).
      { assert (Hin1 : In x (y :: l2))
          by (eapply Permutation_in; [exact Hp|left; reflexivity]).
        assert (Hin2 : In y (x :: l1))
          by (eapply Permutation_in;
              [symmetry; exact Hp|left; reflexivity]).
        destruct Hin1 as [E|Hin1]; [symmetry; exact E|].
        destruct Hin2 as [E|Hin2]; [exact E|].
        apply mx_ord_antisym; [apply Hx, Hin2|apply Hy, Hin1]. }
      subst y. f_equal. apply IH; try assumption.
      eapply Permutation_cons_inv. exact Hp.
Qed.

(** C4.  For every answer list the engine returns, [LookupMX] gives
    one pair of host and preference for each MX record of the answers:
    with no MX record it fails with [ErrNotFound], and otherwise it
    returns a permutation of the pairs.  The list is sorted: of two
    pairs the one with the higher preference comes first, and of two
    pairs with the same preference the one with the smaller host name
    in the lexicographic order.  It is the only such list.  The MX
    records (a, 10), (b, 20), (c, 20) give (b, 20), (c, 20), (a, 10). *)
Theorem LookupMX_sorted (cd : Codec) (w : World) (g : Z) (domain : string)
        (answerList : list Resource) :
  result (lookupResourceListL1 cd w g domain TypeMX) = Ok answerList ->
  (mx_records answerList = [] ->
   result (LookupMX cd w g domain) = Err ErrNotFound)
  /\ (mx_records answerList <> [] ->
      exists l,
        result (LookupMX cd w g domain) = Ok l
        /\ Permutation l (mx_records answerList)
        /\ StronglySorted mx_ord l
        /\ (forall l', Permutation l' (mx_records answerList) ->
                       StronglySorted mx_ord l' -> l' = l))
  /\ (mx_records answerList = [mkMX "a" 10; mkMX "b" 20; mkMX "c" 20] ->
      result (LookupMX cd w g domain)
      = Ok [mkMX "b" 20; mkMX "c" 20; mkMX "a" 10]).
Proof.
  intros E.
  assert (Hr : mx_records answerList <> [] ->
               result (LookupMX cd w g domain)
               = Ok (sort_Slice mx_less (mx_records answerList))).
  { intros Hne. rewrite LookupMX_spec, E.
    destruct (mx_records answerList); [contradiction|reflexivity]. }
  destruct (sort_Slice_mx (mx_records answerList)) as [Hp Hs].
  split; [|split].
  - intros Hnil. rewrite LookupMX_spec, E, Hnil. reflexivity.
  - intros Hne. exists (sort_Slice mx_less (mx_records answerList)).
    repeat split; try assumption; [apply Hr, Hne|].
    intros l' Hp' Hs'. apply mx_sorted_unique; try assumption.
    rewrite Hp'. symmetry. exact Hp.
  - intros Hm. rewrite Hr by (rewrite Hm; discriminate).
    rewrite Hm. reflexivity.
Qed.

(** The servers answer with the three MX records of the example. *)
Lemma LookupMX_sorted_witness :
  result (LookupMX demo_codec (root_world [x03]) 0 "example.com")
  = Ok [mkMX "b" 20; mkMX "c" 20; mkMX "a" 10].
Proof.
  apply (proj2 (proj2 (LookupMX_sorted demo_codec (root_world [x03]) 0
                                       "example.com" demo_mail
                                       ltac:(vm_compute; reflexivity)))).
  reflexivity.
Defined.

(** * Further properties of the code *)

(** ** The broker: who wins a race *)

(** The shared variables after the goroutines of a list have run, from
    any state before them. *)
Lemma race_run (dial : nat -> string -> DialOutcome)
      (order : list (nat * string)) :
  forall s,
    conn (fold_left (fun s t => dial_task (dial (fst t) (snd t)) s) order s)
    = match conn s with
      | Some c => Some c
      | None =>
        hd_error (connections (map (fun t => dial (fst t) (snd t)) order))
      end
    /\ errList
         (fold_left (fun s t => dial_task (dial (fst t) (snd t)) s) order s)
       = errList s ++ refusals (map (fun t => dial (fst t) (snd t)) order)
    /\ dropped
         (fold_left (fun s t => dial_task (dial (fst t) (snd t)) s) order s)
       = dropped s
         ++ map conn_Close
              (match conn s with
               | Some _ =>
                 connections (map (fun t => dial (fst t) (snd t)) order)
               | None =>
                 tl (connections (map (fun t => dial (fst t) (snd t)) order))
               end)
    /\ cancels
         (fold_left (fun s t => dial_task (dial (fst t) (snd t)) s) order s)
       = (cancels s
          + match conn s with
            | Some _ => 0
            | None =>
              match connections (map (fun t => dial (fst t) (snd t)) order) with
              | [] => 0
              | _ => 1
              end
            end)%nat.
Proof.
  induction order as [|t order IH]; intros s; cbn [fold_left map].
  - unfold connections, refusals.
    destruct (conn s); cbn [flat_map hd_error tl map];
      rewrite !app_nil_r; repeat split; lia.
  - destruct (IH (dial_task (dial (fst t) (snd t)) s)) as (Hc & He & Hd & Hn).
    rewrite Hc, He, Hd, Hn. clear IH Hc He Hd Hn.
    unfold connections, refusals. cbn [flat_map].
    fold (connections (map (fun t => dial (fst t) (snd t)) order)).
    fold (refusals (map (fun t => dial (fst t) (snd t)) order)).
    destruct (dial (fst t) (snd t)) as [c0|e]; cbn [dial_task].
    + destruct (conn s) as [c|] eqn:Es;
        cbn [conn errList dropped cancels app hd_error tl map].
      * rewrite <- app_assoc. repeat split; lia.
      * repeat split.
        destruct (connections (map (fun t => dial (fst t) (snd t)) order));
          lia.
    + cbn [conn errList dropped cancels app].
      rewrite <- app_assoc. repeat split.
Qed.

Lemma results_length (rs : list DialOutcome) :
  (length (connections rs) + length (refusals rs) = length rs)%nat.
Proof.
  induction rs as [|r rs IH]; [reflexivity|].
  unfold connections, refusals in *. cbn [flat_map].
  rewrite !length_app. destruct r; cbn [length]; lia.
Qed.

Lemma dial_results_length (dial : nat -> string -> DialOutcome)
      (choices : list nat) (l : list string) :
  length (dial_results dial choices l) = length l.
Proof.
  unfold dial_results. rewrite length_map.
  rewrite (Permutation_length (lock_order_perm choices (spawn_all l))).
  apply spawn_all_length.
Qed.

(** [gDialRemote] on a list that is not empty, in terms of the results
    of the dials in the order of the mutex. *)
Lemma gDialRemote_run (dial : nat -> string -> DialOutcome)
      (choices : list nat) (l : list string) :
  l <> [] ->
  fst (gDialRemote dial choices l)
  = match connections (dial_results dial choices l) with
    | c :: _ => Ok c
    | [] => match refusals (dial_results dial choices l) with
            | e :: _ => Err e
            | [] => Panic "index out of range"
            end
    end
  /\ conn (snd (gDialRemote dial choices l))
     = hd_error (connections (dial_results dial choices l))
  /\ errList (snd (gDialRemote dial choices l))
     = refusals (dial_results dial choices l)
  /\ dropped (snd (gDialRemote dial choices l))
     = map conn_Close (tl (connections (dial_results dial choices l)))
  /\ cancels (snd (gDialRemote dial choices l))
     = match connections (dial_results dial choices l) with
       | [] => 0%nat
       | _ => 1%nat
       end.
Proof.
  intros Hl. unfold gDialRemote, dial_results.
  destruct l as [|a l']; [contradiction|]. cbn [length Nat.eqb].
  destruct (race_run dial (lock_order choices (spawn_all (a :: l')))
                     (mkRace None [] (spawn_all (a :: l')) [] 0))
    as (Hc & He & Hd & Hn).
  cbn [conn errList dropped cancels app] in Hc, He, Hd, Hn.
  set (s := fold_left (fun s t => dial_task (dial (fst t) (snd t)) s)
                      (lock_order choices (spawn_all (a :: l')))
                      (mkRace None [] (spawn_all (a :: l')) [] 0)) in *.
  set (rs := map (fun t => dial (fst t) (snd t))
                 (lock_order choices (spawn_all (a :: l')))) in *.
  rewrite Hc.
  destruct (connections rs) as [|c cs]; cbn [hd_error].
  - rewrite He. destruct (refusals rs); cbn [fst snd];
      repeat split; assumption.
  - cbn [fst snd]. repeat split; assumption.
Qed.

(** X1.  When at least one dial connects, [gDialRemote] returns the
    connection of the goroutine that was the first of the successful
    ones to take the mutex.  Every other connection that was made is
    closed and dropped, [cancelFn] is called once, every failed dial
    has its error in the error list, and every address is accounted
    for: one winner, the dropped connections and the errors. *)
Theorem gDialRemote_winner (dial : nat -> string -> DialOutcome)
        (choices : list nat) (targetAddrList : list string)
        (c : Conn) (others : list Conn) :
  connections (dial_results dial choices targetAddrList) = c :: others ->
  fst (gDialRemote dial choices targetAddrList) = Ok c
  /\ dropped (snd (gDialRemote dial choices targetAddrList))
     = map conn_Close others
  /\ Forall (fun d => closed d = true)
            (dropped (snd (gDialRemote dial choices targetAddrList)))
  /\ cancels (snd (gDialRemote dial choices targetAddrList)) = 1%nat
  /\ errList (snd (gDialRemote dial choices targetAddrList))
     = refusals (dial_results dial choices targetAddrList)
  /\ (1 + length others
      + length (errList (snd (gDialRemote dial choices targetAddrList)))
      = length targetAddrList)%nat.
Proof.
  intros Hc.
  assert (Hl : targetAddrList <> []).
  { intros ->. discriminate Hc. }
  destruct (gDialRemote_run dial choices targetAddrList Hl)
    as (Hr & _ & He & Hd & Hn).
  rewrite Hc in Hr, Hd, Hn. cbn [tl] in Hd.
  repeat split; try assumption.
  - rewrite Hd. apply Forall_forall. intros d Hd'.
    apply in_map_iff in Hd'. destruct Hd' as (d0 & <- & _). reflexivity.
  - rewrite He.
    pose proof (results_length (dial_results dial choices targetAddrList)) as H.
    rewrite Hc, dial_results_length in H. cbn [length] in H. lia.
Qed.

(** Three addresses; the first cannot be reached, and of the two others
    the third takes the mutex first. *)
Lemma gDialRemote_winner_witness :
  fst (gDialRemote
         (fun i addr => if (i =? 0)%nat then Refused (ErrDial addr)
                        else Connected (server addr []))
         [2%nat] ["a:53"; "b:53"; "c:53"])
  = Ok (server "c:53" []).
Proof.
  apply (proj1 (gDialRemote_winner
                  (fun i addr => if (i =? 0)%nat then Refused (ErrDial addr)
                                 else Connected (server addr []))
                  [2%nat] ["a:53"; "b:53"; "c:53"]
                  (server "c:53" []) [server "b:53" []] eq_refl)).
Defined.

Lemma spawn_all_combine (l : list string) :
  spawn_all l = combine (seq 0 (length l)) l.
Proof. unfold spawn_all. rewrite spawn_all_from. reflexivity. Qed.

(** The connections of a task list in which one address connects and
    the others are refused. *)
Lemma connections_single (dial : nat -> string -> DialOutcome) (c : Conn) :
  forall (l : list string) (k i : nat) (addr : string),
    nth_error l i = Some addr ->
    dial (k + i)%nat addr = Connected c ->
    (forall j a, nth_error l j = Some a -> j <> i ->
                 exists e, dial (k + j)%nat a = Refused e) ->
    connections (map (fun t => dial (fst t) (snd t))
                     (combine (seq k (length l)) l)) = [c].
Proof.
  induction l as [|a l IH]; intros k i addr Hi Hc Hr.
  - destruct i; discriminate Hi.
  - cbn [length seq combine map]. unfold connections. cbn [flat_map fst snd].
    fold (connections (map (fun t => dial (fst t) (snd t))
                           (combine (seq (S k) (length l)) l))).
    destruct i as [|i]; cbn [nth_error] in Hi.
    + inversion Hi; subst a. rewrite Nat.add_0_r in Hc. rewrite Hc.
      cbn [app]. f_equal.
      assert (Hall : forall l' k',
                 (forall j a, nth_error l' j = Some a ->
                              exists e, dial (k' + j)%nat a = Refused e) ->
                 connections (map (fun t => dial (fst t) (snd t))
                                  (combine (seq k' (length l')) l')) = []).
      { induction l' as [|a' l' IH']; intros k' H'; [reflexivity|].
        cbn [length seq combine map]. unfold connections.
        cbn [flat_map fst snd].
        destruct (H' 0%nat a' eq_refl) as [e He].
        rewrite Nat.add_0_r in He. rewrite He. cbn [app].
        apply IH'. intros j a0 Hj.
        replace (S k' + j)%nat with (k' + S j)%nat by lia.
        apply H'. exact Hj. }
      apply Hall. intros j a0 Hj.
      replace (S k + j)%nat with (k + S j)%nat by lia.
      apply Hr; [exact Hj|discriminate].
    + destruct (Hr 0%nat a eq_refl) as [e He]; [discriminate|].
      rewrite Nat.add_0_r in He. rewrite He. cbn [app].
      apply (IH (S k) i addr Hi).
      * replace (S k + i)%nat with (k + S i)%nat by lia. exact Hc.
      * intros j a0 Hj Hne.
        replace (S k + j)%nat with (k + S j)%nat by lia.
        apply Hr; [exact Hj|lia].
Qed.

(** X2.  When exactly one address of the list can be reached,
    [gDialRemote] returns the connection to it, at whatever position the
    address is and in whatever order the goroutines run; no connection
    is dropped and every other address has its error in the list. *)
Theorem gDialRemote_single (dial : nat -> string -> DialOutcome)
        (choices : list nat) (targetAddrList : list string)
        (i : nat) (addr : string) (c : Conn) :
  nth_error targetAddrList i = Some addr ->
  dial i addr = Connected c ->
  (forall j a, nth_error targetAddrList j = Some a -> j <> i ->
               exists e, dial j a = Refused e) ->
  fst (gDialRemote dial choices targetAddrList) = Ok c
  /\ dropped (snd (gDialRemote dial choices targetAddrList)) = []
  /\ S (length (errList (snd (gDialRemote dial choices targetAddrList))))
     = length targetAddrList.
Proof.
  intros Hi Hc Hr.
  assert (Hcs : connections (dial_results dial choices targetAddrList) = [c]).
  { apply Permutation_length_1_inv.
    rewrite <- (connections_single dial c targetAddrList 0 i addr Hi Hc Hr).
    rewrite <- spawn_all_combine. unfold dial_results, connections.
    apply Permutation_flat_map, Permutation_map. symmetry.
    apply lock_order_perm. }
  assert (Hl : targetAddrList <> []).
  { intros ->. destruct i; discriminate Hi. }
  destruct (gDialRemote_run dial choices targetAddrList Hl)
    as (Hres & _ & He & Hd & _).
  rewrite Hcs in Hres, Hd.
  split; [exact Hres|]. split; [exact Hd|].
  rewrite He.
  pose proof (results_length (dial_results dial choices targetAddrList)) as H.
  rewrite Hcs, dial_results_length in H. cbn [length] in H. lia.
Qed.

(** Only the second of three addresses can be reached. *)
Lemma gDialRemote_single_witness :
  fst (gDialRemote
         (fun i addr => if (i =? 1)%nat then Connected (server addr [])
                        else Refused (ErrDial addr))
         [1%nat; 1%nat] ["a:53"; "b:53"; "c:53"])
  = Ok (server "b:53" []).
Proof.
  apply (proj1 (gDialRemote_single
                  (fun i addr => if (i =? 1)%nat then Connected (server addr [])
                                 else Refused (ErrDial addr))
                  [1%nat; 1%nat] ["a:53"; "b:53"; "c:53"]
                  1%nat "b:53" (server "b:53" []) eq_refl eq_refl
                  ltac:(intros [|[|[|j]]] a Hj Hne; cbn in *;
                        try congruence; eexists; reflexivity))).
Defined.

(** X3.  [gDialRemote] returns a connection or an error and never
    panics: when it reads [errList[0]] the list has an element.  It
    returns an error exactly when the list is empty or no dial
    connected. *)
Theorem gDialRemote_no_panic (dial : nat -> string -> DialOutcome)
        (choices : list nat) (targetAddrList : list string) :
  ((exists c, fst (gDialRemote dial choices targetAddrList) = Ok c)
   \/ (exists e, fst (gDialRemote dial choices targetAddrList) = Err e))
  /\ ((exists e, fst (gDialRemote dial choices targetAddrList) = Err e)
      <-> connections (dial_results dial choices targetAddrList) = []).
Proof.
  destruct targetAddrList as [|a l].
  - split; [right; eexists; reflexivity|].
    split; [reflexivity|]. intros _. eexists. reflexivity.
  - assert (Hl : a :: l <> []) by discriminate.
    destruct (gDialRemote_run dial choices (a :: l) Hl) as (Hres & _).
    pose proof (results_length (dial_results dial choices (a :: l))) as H.
    rewrite dial_results_length in H. cbn [length] in H.
    destruct (connections (dial_results dial choices (a :: l)))
      as [|c cs] eqn:Ec.
    + destruct (refusals (dial_results dial choices (a :: l))) as [|e es].
      * cbn [length] in H. lia.
      * split; [right; exists e; exact Hres|].
        split; [reflexivity|]. intros _. exists e. exact Hres.
    + split; [left; exists c; exact Hres|].
      split; [|discriminate]. intros [e He]. rewrite Hres in He.
      discriminate He.
Qed.

(** ** The transport: when an exchange succeeds *)

Lemma io_ReadFull_remote (c : Conn) (n : nat) :
  remote (snd (io_ReadFull c n)) = remote c.
Proof.
  unfold io_ReadFull. destruct (n <=? length (unread c))%nat; reflexivity.
Qed.

Lemma read_reply_remote (c : Conn) : remote (snd (read_reply c)) = remote c.
Proof.
  unfold read_reply. pose proof (io_ReadFull_remote c 2) as H2.
  destruct (io_ReadFull c 2) as [[hdr|e|m|] c2]; cbn [snd] in *; auto.
  destruct (Uint16 hdr) as [n|e|m|]; cbn [snd]; auto.
  destruct (uint16 (2 + n) <? 2); cbn [snd]; auto.
  rewrite io_ReadFull_remote. exact H2.
Qed.

Lemma exchangePacket_remote (c : Conn) (send : list byte) :
  remote (snd (exchangePacket c send)) = remote c.
Proof.
  destruct (Z.le_gt_cases (Z.of_nat (length send)) MaxUint16) as [Hs|Hs].
  - rewrite (exchangePacket_fits c send Hs). unfold conn_Write.
    destruct (wbroken c); [reflexivity|]. rewrite read_reply_remote.
    reflexivity.
  - rewrite (exchangePacket_too_long c send) by lia. reflexivity.
Qed.

(** X4.  [exchangePacket] returns a reply exactly when the payload has
    at most 65535 bytes, the connection accepts the write, and the
    stream after the write starts with two bytes of a length [n] of at
    most 65533 that are followed by at least [n] bytes; the reply is
    then those [n] bytes.  So a reply that is returned has at most
    65533 bytes. *)
Theorem exchangePacket_success (c : Conn) (send body : list byte) :
  (fst (exchangePacket c send) = Ok body <->
   Z.of_nat (length send) <= MaxUint16
   /\ wbroken c = false
   /\ exists b0 b1 rest,
       unread c ++ peer c (frame send) = b0 :: b1 :: rest
       /\ 256 * Z_of_byte b0 + Z_of_byte b1 <= 65533
       /\ (Z.to_nat (256 * Z_of_byte b0 + Z_of_byte b1) <= length rest)%nat
       /\ body = firstn (Z.to_nat (256 * Z_of_byte b0 + Z_of_byte b1)) rest)
  /\ (fst (exchangePacket c send) = Ok body ->
      Z.of_nat (length body) <= 65533).
Proof.
  assert (Hiff :
    fst (exchangePacket c send) = Ok body <->
    Z.of_nat (length send) <= MaxUint16
    /\ wbroken c = false
    /\ exists b0 b1 rest,
        unread c ++ peer c (frame send) = b0 :: b1 :: rest
        /\ 256 * Z_of_byte b0 + Z_of_byte b1 <= 65533
        /\ (Z.to_nat (256 * Z_of_byte b0 + Z_of_byte b1) <= length rest)%nat
        /\ body = firstn (Z.to_nat (256 * Z_of_byte b0 + Z_of_byte b1)) rest).
  { split.
    - intros Hok.
      destruct (Z.le_gt_cases (Z.of_nat (length send)) MaxUint16) as [Hs|Hs].
      2: { rewrite (exchangePacket_too_long c send) in Hok by lia.
           discriminate Hok. }
      split; [exact Hs|].
      rewrite (exchangePacket_fits c send Hs) in Hok. unfold conn_Write in Hok.
      destruct (wbroken c) eqn:Hw; [discriminate Hok|].
      split; [reflexivity|].
      set (c1 := mkConn (remote c) (peer c) (unread c ++ peer c (frame send))
                        (wlog c ++ [frame send]) false (closed c)) in *.
      assert (Hu : unread c1 = unread c ++ peer c (frame send)) by reflexivity.
      destruct (unread c ++ peer c (frame send)) as [|b0 [|b1 rest]] eqn:Es.
      + destruct (read_reply_short_header c1) as [e He].
        { rewrite Hu. cbn [length]. lia. }
        rewrite He in Hok. discriminate Hok.
      + destruct (read_reply_short_header c1) as [e He].
        { rewrite Hu. cbn [length]. lia. }
        rewrite He in Hok. discriminate Hok.
      + exists b0, b1, rest. split; [reflexivity|].
        destruct (Z.le_gt_cases (256 * Z_of_byte b0 + Z_of_byte b1) 65533)
          as [Hn|Hn].
        * split; [exact Hn|].
          destruct (read_reply_stream c1 b0 b1 rest Hu Hn) as [H1 H2].
          destruct (Nat.le_gt_cases
                      (Z.to_nat (256 * Z_of_byte b0 + Z_of_byte b1))
                      (length rest)) as [Hlen|Hlen].
          -- split; [exact Hlen|]. destruct (H1 Hlen) as [Hb _].
             rewrite Hb in Hok. inversion Hok. reflexivity.
          -- destruct (H2 Hlen) as [e He]. rewrite He in Hok.
             discriminate Hok.
        * rewrite (read_reply_wraps c1 b0 b1 rest Hu) in Hok by lia.
          discriminate Hok.
    - intros (Hs & Hw & b0 & b1 & rest & Es & Hn & Hlen & ->).
      rewrite (exchangePacket_fits c send Hs). unfold conn_Write. rewrite Hw.
      set (c1 := mkConn (remote c) (peer c) (unread c ++ peer c (frame send))
                        (wlog c ++ [frame send]) false (closed c)).
      assert (Hu : unread c1 = b0 :: b1 :: rest) by exact Es.
      destruct (read_reply_stream c1 b0 b1 rest Hu Hn) as [H1 _].
      apply H1. exact Hlen. }
  split; [exact Hiff|].
  intros Hok. apply Hiff in Hok.
  destruct Hok as (_ & _ & b0 & b1 & rest & _ & Hn & Hlen & ->).
  rewrite firstn_length_le by exact Hlen.
  pose proof (Z_of_byte_range b0). pose proof (Z_of_byte_range b1). lia.
Qed.

(** A server whose reply announces three bytes and holds four. *)
Lemma exchangePacket_success_witness :
  fst (exchangePacket
         (mkConn "ns:53" (fun _ => [x00; x03; x0a; x0b; x0c; x0d])
                 [] [] false false)
         [x01]) = Ok [x0a; x0b; x0c].
Proof.
  apply (proj2 (proj1 (exchangePacket_success
                         (mkConn "ns:53"
                                 (fun _ => [x00; x03; x0a; x0b; x0c; x0d])
                                 [] [] false false)
                         [x01] [x0a; x0b; x0c]))).
  split; [vm_compute; discriminate|]. split; [reflexivity|].
  exists x00, x03, [x0a; x0b; x0c; x0d].
  split; [reflexivity|]. split; [vm_compute; discriminate|].
  split; [vm_compute; lia|reflexivity].
Defined.

(** X5.  On any connection that accepts the write, a reply whose two
    bytes of length say 65534 or 65535 makes [exchangePacket] panic at
    the slice expression [temp[2:2+n]]: the frame of the request has
    been written and the two bytes have been read, and nothing of the
    reply is returned. *)
Theorem exchangePacket_long_reply (c : Conn) (send : list byte)
        (b0 b1 : byte) (rest : list byte) :
  Z.of_nat (length send) <= MaxUint16 ->
  wbroken c = false ->
  unread c ++ peer c (frame send) = b0 :: b1 :: rest ->
  65534 <= 256 * Z_of_byte b0 + Z_of_byte b1 ->
  fst (exchangePacket c send) = Panic "slice bounds out of range"
  /\ wlog (snd (exchangePacket c send)) = wlog c ++ [frame send]
  /\ unread (snd (exchangePacket c send)) = rest.
Proof.
  intros Hs Hw Es Hn.
  rewrite (exchangePacket_fits c send Hs). unfold conn_Write. rewrite Hw.
  set (c1 := mkConn (remote c) (peer c) (unread c ++ peer c (frame send))
                    (wlog c ++ [frame send]) false (closed c)).
  assert (Hu : unread c1 = b0 :: b1 :: rest) by exact Es.
  split; [apply (read_reply_wraps c1 b0 b1 rest Hu Hn)|].
  split; [rewrite read_reply_wlog; reflexivity|].
  unfold read_reply, io_ReadFull. rewrite Hu.
  cbn [length Nat.leb firstn skipn unread remote peer wlog wbroken closed Uint16].
  rewrite be16_value.
  pose proof (Z_of_byte_range b0). pose proof (Z_of_byte_range b1).
  replace (uint16 (2 + (256 * Z_of_byte b0 + Z_of_byte b1)) <? 2) with true;
    [reflexivity|].
  symmetry. apply Z.ltb_lt. unfold uint16.
  assert (E : (2 + (256 * Z_of_byte b0 + Z_of_byte b1)) mod 65536
              = 2 + (256 * Z_of_byte b0 + Z_of_byte b1) - 65536).
  { symmetry. apply Z.mod_unique with 1; lia. }
  lia.
Qed.

(** A server that announces 65535 bytes. *)
Lemma exchangePacket_long_reply_witness :
  fst (exchangePacket
         (mkConn "ns:53" (fun _ => [xff; xff; x0a]) [] [] false false) [x01])
  = Panic "slice bounds out of range".
Proof.
  apply (proj1 (exchangePacket_long_reply
                  (mkConn "ns:53" (fun _ => [xff; xff; x0a]) [] [] false false)
                  [x01] xff xff [x0a]
                  ltac:(vm_compute; discriminate) eq_refl eq_refl
                  ltac:(vm_compute; discriminate))).
Defined.

(** ** The engine: what the hops of a call record *)

Lemma fail_as_not_ok {A B} (o : outcome A) (b : B) : fail_as o <> Ok b.
Proof. destruct o; discriminate. Qed.

(** The hop of a turn: its race is the race of the broker on the server
    list of the turn; its connection is the winner after the exchange,
    closed when the exchange returned, or none when the broker failed,
    and then the turn returns what the broker returned.  A turn that
    returns answers returns the answer section of the reply of its
    hop. *)
Lemma loop_body_hop (cd : Codec) (w : World) (send : list byte)
      (depth : Z) (serverList : list string) :
  match loop_body cd w send depth serverList with
  | Return r (Some h) =>
    hop_race h
    = snd (gDialRemote (dialer w depth) (scheduler w depth) serverList)
    /\ match fst (gDialRemote (dialer w depth) (scheduler w depth)
                              serverList) with
       | Ok c0 => hop_conn h = Some (exchanged c0 send)
       | o => hop_conn h = None /\ hop_reply h = None /\ r = fail_as o
       end
    /\ (forall a, r = Ok a ->
                  exists m, hop_reply h = Some m /\ Answers m = a /\ a <> [])
  | Continue h _ =>
    hop_race h
    = snd (gDialRemote (dialer w depth) (scheduler w depth) serverList)
    /\ exists c0,
        fst (gDialRemote (dialer w depth) (scheduler w depth) serverList)
        = Ok c0
        /\ hop_conn h = Some (exchanged c0 send)
  | Return _ None => True
  end.
Proof.
  unfold loop_body.
  destruct (depth >? 10); [exact I|].
  destruct (gDialRemote (dialer w depth) (scheduler w depth) serverList)
    as [[c|e|msg|] race]; cbn [fst snd fail_as];
    try (repeat split; try reflexivity; intros a Ha; discriminate Ha).
  unfold exchanged.
  destruct (exchangePacket c send) as [[receive|e|msg|] c1] eqn:Ex;
    cbn [fst snd fail_as];
    try (repeat split; try reflexivity; intros a Ha; discriminate Ha).
  destruct (Unpack cd receive) as [m|e];
    [|repeat split; try reflexivity; intros a Ha; discriminate Ha].
  destruct (Answers m) as [|x xs] eqn:Ea; cbn [length Nat.ltb Nat.leb].
  - destruct (referral (Authorities m)).
    + repeat split; try reflexivity. intros a Ha; discriminate Ha.
    + split; [reflexivity|]. exists c. unfold exchanged. rewrite Ex.
      split; reflexivity.
  - repeat split; try reflexivity. intros a Ha. inversion Ha; subst a.
    exists m. cbn [hop_reply]. rewrite Ea. repeat split. discriminate.
Qed.

(** Every hop of the loop records the race of the broker at its depth
    on its server list, and the winner as the turn left it. *)
Lemma referral_loop_hop_conn (cd : Codec) (w : World) (send : list byte)
      (fuel : nat) :
  forall depth serverList h,
    In h (snd (referral_loop cd w send fuel depth serverList)) ->
    hop_race h
    = snd (gDialRemote (dialer w (hop_depth h)) (scheduler w (hop_depth h))
                       (hop_servers h))
    /\ hop_conn h
       = match fst (gDialRemote (dialer w (hop_depth h))
                                (scheduler w (hop_depth h)) (hop_servers h)) with
         | Ok c0 => Some (exchanged c0 send)
         | _ => None
         end.
Proof.
  induction fuel as [|fuel IH]; intros depth serverList h;
    cbn [referral_loop]; [intros []|].
  pose proof (loop_body_cases cd w send depth serverList) as Hb.
  pose proof (loop_body_hop cd w send depth serverList) as Hh.
  destruct (loop_body cd w send depth serverList) as [r [h0|]|h0 nsList].
  - destruct Hb as (_ & Hd & Hs & _). destruct Hh as (Hr & Hc & _).
    cbn [snd]. intros [<-|[]]. rewrite Hd, Hs. split; [exact Hr|].
    destruct (fst (gDialRemote (dialer w depth) (scheduler w depth) serverList));
      try exact Hc; apply Hc.
  - intros [].
  - destruct Hb as (_ & Hd & Hs & _). destruct Hh as (Hr & c0 & Hg & Hc).
    specialize (IH (depth + 1) nsList h).
    destruct (referral_loop cd w send fuel (depth + 1) nsList) as [r hs].
    cbn [snd] in *. intros [<-|Hin]; [|apply IH, Hin].
    rewrite Hd, Hs, Hg. split; assumption.
Qed.

(** A hop without a connection ends the run with what the broker
    returned. *)
Lemma referral_loop_dial_failure (cd : Codec) (w : World) (send : list byte)
      (fuel : nat) :
  forall depth serverList h,
    In h (snd (referral_loop cd w send fuel depth serverList)) ->
    hop_conn h = None ->
    hop_reply h = None
    /\ fst (referral_loop cd w send fuel depth serverList)
       = fail_as (fst (gDialRemote (dialer w (hop_depth h))
                                   (scheduler w (hop_depth h))
                                   (hop_servers h))).
Proof.
  induction fuel as [|fuel IH]; intros depth serverList h;
    cbn [referral_loop]; [intros []|].
  pose proof (loop_body_cases cd w send depth serverList) as Hb.
  pose proof (loop_body_hop cd w send depth serverList) as Hh.
  destruct (loop_body cd w send depth serverList) as [r [h0|]|h0 nsList].
  - destruct Hb as (_ & Hd & Hs & _). destruct Hh as (_ & Hc & _).
    cbn [fst snd]. intros [<-|[]] Hnone. rewrite Hd, Hs.
    destruct (fst (gDialRemote (dialer w depth) (scheduler w depth) serverList))
      as [c0| | |];
      try (destruct Hc as (_ & Hrep & Hr); split; [exact Hrep|exact Hr]).
    rewrite Hc in Hnone. discriminate Hnone.
  - intros [].
  - destruct Hh as (_ & c0 & _ & Hc).
    specialize (IH (depth + 1) nsList h).
    destruct (referral_loop cd w send fuel (depth + 1) nsList) as [r hs].
    cbn [fst snd] in *. intros [<-|Hin] Hnone.
    + rewrite Hc in Hnone. discriminate Hnone.
    + apply IH; assumption.
Qed.

(** A run that returns answers: they are the answers of the reply of
    the last hop, and the hops before it got referrals. *)
Lemma referral_loop_success (cd : Codec) (w : World) (send : list byte)
      (fuel : nat) :
  forall depth serverList a,
    fst (referral_loop cd w send fuel depth serverList) = Ok a ->
    a <> []
    /\ exists hs h m,
        snd (referral_loop cd w send fuel depth serverList) = hs ++ [h]
        /\ hop_reply h = Some m /\ Answers m = a
        /\ forallb is_referral hs = true.
Proof.
  induction fuel as [|fuel IH]; intros depth serverList a;
    cbn [referral_loop]; [discriminate|].
  pose proof (loop_body_cases cd w send depth serverList) as Hb.
  pose proof (loop_body_hop cd w send depth serverList) as Hh.
  destruct (loop_body cd w send depth serverList) as [r [h0|]|h0 nsList].
  - destruct Hh as (_ & _ & Hok). cbn [fst snd]. intros ->.
    destruct (Hok a eq_refl) as (m & Hm & Ha & Hne).
    split; [exact Hne|]. exists [], h0, m. repeat split; assumption.
  - destruct Hb as (_ & ->). discriminate.
  - destruct Hb as (_ & _ & _ & Href & _).
    specialize (IH (depth + 1) nsList a).
    destruct (referral_loop cd w send fuel (depth + 1) nsList) as [r hs].
    cbn [fst snd] in *. intros Hr.
    destruct (IH Hr) as (Hne & hs' & h & m & -> & Hm & Ha & Hall).
    split; [exact Hne|]. exists (h0 :: hs'), h, m.
    repeat split; try assumption. cbn [forallb]. rewrite Href. exact Hall.
Qed.

(** A call whose query is packed is the run of the loop on the packed
    bytes. *)
Lemma lookup_run (cd : Codec) (w : World) (g : Z) (domain : string)
      (typeC : RType) (q : Message) (send : list byte) :
  query (lookupResourceListL1 cd w g domain typeC) = Some q ->
  Pack cd q = Success send ->
  result (lookupResourceListL1 cd w g domain typeC)
  = fst (referral_loop cd w send budget 0 gRootServers)
  /\ hops (lookupResourceListL1 cd w g domain typeC)
     = snd (referral_loop cd w send budget 0 gRootServers).
Proof.
  unfold lookupResourceListL1.
  destruct (NewName cd _) as [name|e]; [|discriminate].
  destruct (Pack cd _) as [send'|e] eqn:Ep.
  - destruct (referral_loop cd w send' budget 0 gRootServers) as [r hs] eqn:El.
    cbn [query result hops]. intros Hq Hp. inversion Hq; subst q.
    rewrite Ep in Hp. inversion Hp; subst send'. rewrite El.
    split; reflexivity.
  - cbn [query]. intros Hq Hp. inversion Hq; subst q.
    rewrite Ep in Hp. discriminate Hp.
Qed.

(** A turn at a depth of at most 10 makes a hop. *)
Lemma referral_loop_first (cd : Codec) (w : World) (send : list byte)
      (fuel : nat) (depth : Z) (serverList : list string) :
  depth <= 10 ->
  exists h rest,
    snd (referral_loop cd w send (S fuel) depth serverList) = h :: rest
    /\ hop_depth h = depth /\ hop_servers h = serverList.
Proof.
  intros Hd. cbn [referral_loop].
  pose proof (loop_body_cases cd w send depth serverList) as Hb.
  destruct (loop_body cd w send depth serverList) as [r [h|]|h nsList].
  - destruct Hb as (_ & Hh & Hs & _). exists h, [].
    split; [reflexivity|split; assumption].
  - destruct Hb as [Hb _]. lia.
  - destruct Hb as (_ & Hh & Hs & _).
    destruct (referral_loop cd w send fuel (depth + 1) nsList) as [r hs].
    exists h, hs. split; [reflexivity|split; assumption].
Qed.

(** X6.  What a call does before the loop.  When the codec refuses the
    absolute form of the domain, the call returns that error, touches
    neither the counter nor the network, and builds no query.  When the
    name is accepted and packing the query fails, the call returns that
    error without a hop, but the counter has moved.  When the query is
    packed, the counter has moved and the call makes at least one hop:
    the first, at depth 0 on the root servers. *)
Theorem lookup_before_loop (cd : Codec) (w : World) (g : Z)
        (domain : string) (typeC : RType) :
  (forall e,
      NewName cd (absolute domain) = Failure e ->
      result (lookupResourceListL1 cd w g domain typeC) = Err e
      /\ lookupId (lookupResourceListL1 cd w g domain typeC) = g
      /\ query (lookupResourceListL1 cd w g domain typeC) = None
      /\ hops (lookupResourceListL1 cd w g domain typeC) = [])
  /\ (forall name e,
         NewName cd (absolute domain) = Success name ->
         Pack cd (query_for (uint16 (AddUint32 g 1)) name typeC) = Failure e ->
         result (lookupResourceListL1 cd w g domain typeC) = Err e
         /\ lookupId (lookupResourceListL1 cd w g domain typeC)
            = AddUint32 g 1
         /\ hops (lookupResourceListL1 cd w g domain typeC) = [])
  /\ (forall name send,
         NewName cd (absolute domain) = Success name ->
         Pack cd (query_for (uint16 (AddUint32 g 1)) name typeC)
         = Success send ->
         lookupId (lookupResourceListL1 cd w g domain typeC) = AddUint32 g 1
         /\ exists h rest,
             hops (lookupResourceListL1 cd w g domain typeC) = h :: rest
             /\ hop_depth h = 0 /\ hop_servers h = gRootServers).
Proof.
  pose proof (lookup_query cd w g domain typeC) as Hq.
  assert (Ha : (if negb (HasSuffix domain ".") then (domain ++ ".")%string
                else domain) = absolute domain)
    by (unfold absolute; destruct (HasSuffix domain "."); reflexivity).
  split; [|split].
  - intros e He. unfold lookupResourceListL1. rewrite Ha, He.
    repeat split.
  - intros name e Hn Hp. unfold lookupResourceListL1. rewrite Ha, Hn.
    unfold query_for in Hp. rewrite Hp. repeat split.
  - intros name send Hn Hp. rewrite Hn in Hq. destruct Hq as (Hq & Hid).
    split; [exact Hid|].
    destruct (lookup_run cd w g domain typeC _ send Hq Hp) as [_ Hh].
    rewrite Hh.
    apply (referral_loop_first cd w send 11%nat 0 gRootServers). lia.
Qed.

(** A name of 256 characters. *)
Lemma lookup_before_loop_witness :
  result (lookupResourceListL1
            demo_codec loop_world 7
            (String.concat "" (repeat "0123456789abcdef" 16)) TypeA)
  = Err (ErrCodec "name too long")
  /\ lookupId (lookupResourceListL1
                 demo_codec loop_world 7
                 (String.concat "" (repeat "0123456789abcdef" 16)) TypeA)
     = 7.
Proof.
  destruct (proj1 (lookup_before_loop
                     demo_codec loop_world 7
                     (String.concat "" (repeat "0123456789abcdef" 16)) TypeA)
                  (ErrCodec "name too long") eq_refl)
    as (Hr & Hid & _).
  split; [exact Hr|exact Hid].
Defined.

(** X7.  A call that succeeds returns the answer section of the reply
    of its last hop, which is not empty, and every hop before the last
    got a referral. *)
Theorem lookup_success (cd : Codec) (w : World) (g : Z) (domain : string)
        (typeC : RType) (answerList : list Resource) :
  result (lookupResourceListL1 cd w g domain typeC) = Ok answerList ->
  answerList <> []
  /\ exists hs h m,
      hops (lookupResourceListL1 cd w g domain typeC) = hs ++ [h]
      /\ hop_reply h = Some m /\ Answers m = answerList
      /\ forallb is_referral hs = true.
Proof.
  intros Hr.
  destruct (lookup_shape cd w g domain typeC) as [[_ [e He]]|(send & Hf & Hh)].
  - rewrite He in Hr. discriminate Hr.
  - rewrite Hh. rewrite Hf in Hr.
    apply (referral_loop_success cd w send budget 0 gRootServers _ Hr).
Qed.

(** The root servers refer to [ns.loop.], which answers. *)
Lemma lookup_success_witness :
  exists hs h m,
    hops (lookupResourceListL1 demo_codec answer_world 0 "example.com" TypeA)
    = hs ++ [h]
    /\ hop_reply h = Some m /\ Answers m = [demo_answer]
    /\ forallb is_referral hs = true.
Proof.
  apply (proj2 (lookup_success demo_codec answer_world 0 "example.com" TypeA
                               [demo_answer]
                               ltac:(vm_compute; reflexivity))).
Defined.

Lemma io_ReadFull_closed (c : Conn) (n : nat) :
  closed (snd (io_ReadFull c n)) = closed c.
Proof.
  unfold io_ReadFull. destruct (n <=? length (unread c))%nat; reflexivity.
Qed.

Lemma read_reply_closed (c : Conn) : closed (snd (read_reply c)) = closed c.
Proof.
  unfold read_reply. pose proof (io_ReadFull_closed c 2) as H2.
  destruct (io_ReadFull c 2) as [[hdr|e|m|] c2]; cbn [snd] in *; auto.
  destruct (Uint16 hdr) as [n|e|m|]; cbn [snd]; auto.
  destruct (uint16 (2 + n) <? 2); cbn [snd]; auto.
  rewrite io_ReadFull_closed. exact H2.
Qed.

(** [exchangePacket] itself closes nothing. *)
Lemma exchangePacket_closed (c : Conn) (send : list byte) :
  closed (snd (exchangePacket c send)) = closed c.
Proof.
  destruct (Z.le_gt_cases (Z.of_nat (length send)) MaxUint16) as [Hs|Hs].
  - rewrite (exchangePacket_fits c send Hs). unfold conn_Write.
    destruct (wbroken c); [reflexivity|]. rewrite read_reply_closed.
    reflexivity.
  - rewrite (exchangePacket_too_long c send) by lia. reflexivity.
Qed.

(** A turn whose exchange panics returns that panic, and is not
    followed by another turn. *)
Lemma loop_body_panic (cd : Codec) (w : World) (send : list byte)
      (depth : Z) (serverList : list string) (c0 : Conn) (m : string) :
  depth <= 10 ->
  fst (gDialRemote (dialer w depth) (scheduler w depth) serverList) = Ok c0 ->
  fst (exchangePacket c0 send) = Panic m ->
  exists o, loop_body cd w send depth serverList = Return (Panic m) o.
Proof.
  unfold loop_body. intros Hle Hg Hx.
  destruct (Z.gtb_spec depth 10); [lia|].
  destruct (gDialRemote (dialer w depth) (scheduler w depth) serverList)
    as [o race]. cbn [fst] in Hg. subst o.
  destruct (exchangePacket c0 send) as [received c1]. cbn [fst] in Hx.
  subst received. eexists. reflexivity.
Qed.

(** A hop whose exchange panics makes the run panic. *)
Lemma referral_loop_panic (cd : Codec) (w : World) (send : list byte)
      (fuel : nat) :
  forall depth serverList h c0 m,
    In h (snd (referral_loop cd w send fuel depth serverList)) ->
    fst (gDialRemote (dialer w (hop_depth h)) (scheduler w (hop_depth h))
                     (hop_servers h)) = Ok c0 ->
    fst (exchangePacket c0 send) = Panic m ->
    fst (referral_loop cd w send fuel depth serverList) = Panic m.
Proof.
  induction fuel as [|fuel IH]; intros depth serverList h c0 m;
    cbn [referral_loop]; [intros []|].
  pose proof (loop_body_cases cd w send depth serverList) as Hb.
  pose proof (loop_body_panic cd w send depth serverList c0 m) as Hp.
  destruct (loop_body cd w send depth serverList) as [r [h0|]|h0 nsList].
  - destruct Hb as (Hle & Hd & Hs & _). cbn [fst snd].
    intros [<-|[]] Hg Hx. rewrite Hd, Hs in Hg.
    destruct (Hp Hle Hg Hx) as [o Ho]. inversion Ho. reflexivity.
  - intros [].
  - destruct Hb as (Hle & Hd & Hs & _).
    specialize (IH (depth + 1) nsList h c0 m).
    destruct (referral_loop cd w send fuel (depth + 1) nsList) as [r hs].
    cbn [fst snd] in *. intros [<-|Hin] Hg Hx.
    + rewrite Hd, Hs in Hg. destruct (Hp Hle Hg Hx) as [o Ho].
      discriminate Ho.
    + apply IH; assumption.
Qed.

(** X8.  Every hop that got a connection from the broker holds the one
    the broker returned for the server list of the hop.  The hop has
    closed it when the exchange returned, with a reply or with an
    error; when [exchangePacket] panicked, the panic left the function
    before [Close], the connection is as the exchange left it, and the
    call panics.  So in a call that does not panic every connection
    was closed.  When the packed query has at most 65535 bytes and the
    connection accepted the write, the hop wrote one frame on it, the
    frame of the packed query: the same bytes at every hop. *)
Theorem lookup_hop_connection (cd : Codec) (w : World) (g : Z)
        (domain : string) (typeC : RType) (q : Message) (send : list byte)
        (h : Hop) (c1 : Conn) :
  query (lookupResourceListL1 cd w g domain typeC) = Some q ->
  Pack cd q = Success send ->
  In h (hops (lookupResourceListL1 cd w g domain typeC)) ->
  hop_conn h = Some c1 ->
  exists c0,
    fst (gDialRemote (dialer w (hop_depth h)) (scheduler w (hop_depth h))
                     (hop_servers h)) = Ok c0
    /\ remote c1 = remote c0
    /\ ((forall m, fst (exchangePacket c0 send) <> Panic m) ->
        closed c1 = true)
    /\ (forall m, fst (exchangePacket c0 send) = Panic m ->
                  closed c1 = closed c0
                  /\ result (lookupResourceListL1 cd w g domain typeC)
                     = Panic m)
    /\ ((forall m, result (lookupResourceListL1 cd w g domain typeC)
                   <> Panic m) ->
        closed c1 = true)
    /\ (Z.of_nat (length send) <= MaxUint16 -> wbroken c0 = false ->
        wlog c1 = wlog c0 ++ [frame send]).
Proof.
  intros Hq Hp Hin Hc.
  destruct (lookup_run cd w g domain typeC q send Hq Hp) as [Hres Hh].
  rewrite Hh in Hin.
  destruct (referral_loop_hop_conn cd w send budget 0 gRootServers h Hin)
    as [_ Hconn].
  rewrite Hc in Hconn.
  destruct (fst (gDialRemote (dialer w (hop_depth h)) (scheduler w (hop_depth h))
                             (hop_servers h))) as [c0| | |] eqn:Hg;
    try discriminate Hconn.
  inversion Hconn; subst c1. exists c0.
  assert (Hclosed : (forall m, fst (exchangePacket c0 send) <> Panic m) ->
                    closed (exchanged c0 send) = true).
  { intros Hnp. unfold exchanged.
    pose proof (exchangePacket_no_fuel c0 send) as Hnf.
    destruct (fst (exchangePacket c0 send)) as [b|e|m|];
      try reflexivity; [exfalso; apply (Hnp m); reflexivity|contradiction]. }
  assert (Hpanic : forall m, fst (exchangePacket c0 send) = Panic m ->
                             closed (exchanged c0 send) = closed c0
                             /\ result (lookupResourceListL1 cd w g domain
                                                             typeC)
                                = Panic m).
  { intros m Hx. split.
    - unfold exchanged. rewrite Hx. apply exchangePacket_closed.
    - rewrite Hres.
      apply (referral_loop_panic cd w send budget 0 gRootServers h c0 m
                                 Hin Hg Hx). }
  split; [reflexivity|]. split.
  { unfold exchanged.
    destruct (fst (exchangePacket c0 send)); cbn [conn_Close remote];
      apply exchangePacket_remote. }
  split; [exact Hclosed|]. split; [exact Hpanic|]. split.
  - intros Hnp. apply Hclosed. intros m Hx.
    apply (Hnp m). apply (Hpanic m Hx).
  - intros Hs Hw. unfold exchanged.
    assert (Hlog : wlog (snd (exchangePacket c0 send))
                   = wlog c0 ++ [frame send]).
    { rewrite (exchangePacket_fits c0 send Hs). unfold conn_Write. rewrite Hw.
      rewrite read_reply_wlog. reflexivity. }
    destruct (fst (exchangePacket c0 send)); cbn [conn_Close wlog];
      exact Hlog.
Qed.

(** The first hop of two calls.  On the network whose root servers
    refer to [ns.loop.] the call returns, and the connection is closed.
    On the network whose servers announce 65535 bytes the exchange
    panics, the call panics, and the connection is left open. *)
Lemma lookup_hop_connection_witness :
  closed (match hop_conn (hd (mkHop 0 [] race0 None None)
                             (hops (lookupResourceListL1
                                      demo_codec answer_world 0
                                      "example.com" TypeA))) with
          | Some c => c
          | None => loopback
          end) = true
  /\ (closed (match hop_conn (hd (mkHop 0 [] race0 None None)
                                 (hops (lookupResourceListL1
                                          demo_codec wrap_world 0
                                          "example.com" TypeA))) with
              | Some c => c
              | None => loopback
              end) = false
      /\ result (lookupResourceListL1 demo_codec wrap_world 0
                                      "example.com" TypeA)
         = Panic "slice bounds out of range").
Proof.
  split.
  - destruct (lookup_hop_connection
                demo_codec answer_world 0 "example.com" TypeA
                (query_for 1 (mkName "example.com.") TypeA)
                (x00 :: x01 :: list_byte_of_string "example.com.")
                (hd (mkHop 0 [] race0 None None)
                    (hops (lookupResourceListL1 demo_codec answer_world 0
                                                "example.com" TypeA)))
                (match hop_conn (hd (mkHop 0 [] race0 None None)
                                    (hops (lookupResourceListL1
                                             demo_codec answer_world 0
                                             "example.com" TypeA))) with
                 | Some c => c
                 | None => loopback
                 end)
                ltac:(vm_compute; reflexivity)
                ltac:(vm_compute; reflexivity)
                ltac:(vm_compute; left; reflexivity)
                ltac:(vm_compute; reflexivity))
      as (c0 & _ & _ & _ & _ & Hcl & _).
    apply Hcl. intros m. vm_compute. discriminate.
  - destruct (lookup_hop_connection
                demo_codec wrap_world 0 "example.com" TypeA
                (query_for 1 (mkName "example.com.") TypeA)
                (x00 :: x01 :: list_byte_of_string "example.com.")
                (hd (mkHop 0 [] race0 None None)
                    (hops (lookupResourceListL1 demo_codec wrap_world 0
                                                "example.com" TypeA)))
                (match hop_conn (hd (mkHop 0 [] race0 None None)
                                    (hops (lookupResourceListL1
                                             demo_codec wrap_world 0
                                             "example.com" TypeA))) with
                 | Some c => c
                 | None => loopback
                 end)
                ltac:(vm_compute; reflexivity)
                ltac:(vm_compute; reflexivity)
                ltac:(vm_compute; left; reflexivity)
                ltac:(vm_compute; reflexivity))
      as (c0 & H0 & _ & _ & Hpanic & _).
    vm_compute in H0. inversion H0 as [Hc0]. rewrite <- Hc0 in Hpanic.
    destruct (Hpanic "slice bounds out of range"
                     ltac:(vm_compute; reflexivity)) as [Hopen Hres].
    split; [exact Hopen|exact Hres].
Defined.

(** X9.  A hop for which the broker gave no connection is a hop at
    which no dial connected; the call returns the first error of the
    error list of that race, and the hop has no reply. *)
Theorem lookup_dial_failure (cd : Codec) (w : World) (g : Z)
        (domain : string) (typeC : RType) (h : Hop) :
  In h (hops (lookupResourceListL1 cd w g domain typeC)) ->
  hop_conn h = None ->
  exists e rest,
    errList (hop_race h) = e :: rest
    /\ result (lookupResourceListL1 cd w g domain typeC) = Err e
    /\ conn (hop_race h) = None
    /\ hop_reply h = None
    /\ connections (dial_results (dialer w (hop_depth h))
                                 (scheduler w (hop_depth h)) (hop_servers h))
       = [].
Proof.
  intros Hin Hc.
  assert (Hne : hop_servers h <> []).
  { apply (chain_servers (lookup_chain cd w g domain typeC));
      [discriminate|exact Hin]. }
  destruct (lookup_shape cd w g domain typeC) as [[E _]|(send & Hf & Hh)].
  { rewrite E in Hin. destruct Hin. }
  rewrite Hh in Hin. rewrite Hf.
  destruct (referral_loop_hop_conn cd w send budget 0 gRootServers h Hin)
    as [Hrace Hconn].
  destruct (referral_loop_dial_failure cd w send budget 0 gRootServers h Hin Hc)
    as [Hrep Hres].
  rewrite Hres, Hrace. clear Hres Hrace.
  destruct (gDialRemote_run (dialer w (hop_depth h)) (scheduler w (hop_depth h))
                            (hop_servers h) Hne) as (Hr & Hcn & He & _).
  pose proof (results_length
                (dial_results (dialer w (hop_depth h))
                              (scheduler w (hop_depth h)) (hop_servers h)))
    as Hlen.
  rewrite dial_results_length in Hlen.
  rewrite Hc in Hconn. rewrite Hr in Hconn. rewrite Hr, Hcn, He.
  destruct (connections (dial_results (dialer w (hop_depth h))
                                      (scheduler w (hop_depth h))
                                      (hop_servers h))) as [|c cs];
    [|discriminate Hconn].
  destruct (refusals (dial_results (dialer w (hop_depth h))
                                   (scheduler w (hop_depth h))
                                   (hop_servers h))) as [|e es].
  - cbn [length] in Hlen. destruct (hop_servers h); [contradiction|].
    cbn [length] in Hlen. lia.
  - exists e, es. repeat split. exact Hrep.
Qed.

(** No root server can be reached. *)
Lemma lookup_dial_failure_witness :
  exists e rest,
    errList (hop_race (hd (mkHop 0 [] race0 None None)
                          (hops (lookupResourceListL1
                                   demo_codec dead_world 0
                                   "example.com" TypeA))))
    = e :: rest
    /\ result (lookupResourceListL1 demo_codec dead_world 0
                                    "example.com" TypeA) = Err e.
Proof.
  destruct (lookup_dial_failure
              demo_codec dead_world 0 "example.com" TypeA
              (hd (mkHop 0 [] race0 None None)
                  (hops (lookupResourceListL1 demo_codec dead_world 0
                                              "example.com" TypeA)))
              ltac:(vm_compute; left; reflexivity)
              ltac:(vm_compute; reflexivity))
    as (e & rest & He & Hr & _).
  exists e, rest. split; [exact He|exact Hr].
Defined.

(** ** The projections: errors, order and host names *)

Ltac same_trace r :=
  cbv zeta; destruct (result r); cbn [fail_as returns result lookupId hops];
  repeat match goal with
         | |- context [if ?b then _ else _] => destruct b
         end;
  repeat split; intros; try congruence.

(** X10.  Each of the six lookup operations returns an error of the
    engine as it is, and has the trace of its call of the engine: the
    same hops and the same value of the counter. *)
Theorem lookup_errors_propagate (cd : Codec) (w : World) (g : Z)
        (domain : string) :
  ((forall e, result (lookupResourceListL1 cd w g domain TypeA) = Err e ->
              result (LookupA cd w g domain) = Err e)
   /\ hops (LookupA cd w g domain)
      = hops (lookupResourceListL1 cd w g domain TypeA)
   /\ lookupId (LookupA cd w g domain)
      = lookupId (lookupResourceListL1 cd w g domain TypeA))
  /\ ((forall e, result (lookupResourceListL1 cd w g domain TypeSOA) = Err e ->
                 result (LookupSOA cd w g domain) = Err e)
      /\ hops (LookupSOA cd w g domain)
         = hops (lookupResourceListL1 cd w g domain TypeSOA)
      /\ lookupId (LookupSOA cd w g domain)
         = lookupId (lookupResourceListL1 cd w g domain TypeSOA))
  /\ ((forall e, result (lookupResourceListL1 cd w g domain TypeNS) = Err e ->
                 result (LookupNS cd w g domain) = Err e)
      /\ hops (LookupNS cd w g domain)
         = hops (lookupResourceListL1 cd w g domain TypeNS)
      /\ lookupId (LookupNS cd w g domain)
         = lookupId (lookupResourceListL1 cd w g domain TypeNS))
  /\ ((forall e, result (lookupResourceListL1 cd w g domain TypeTXT) = Err e ->
                 result (LookupTXT cd w g domain) = Err e)
      /\ hops (LookupTXT cd w g domain)
         = hops (lookupResourceListL1 cd w g domain TypeTXT)
      /\ lookupId (LookupTXT cd w g domain)
         = lookupId (lookupResourceListL1 cd w g domain TypeTXT))
  /\ ((forall e, result (lookupResourceListL1 cd w g domain TypeTXT) = Err e ->
                 result (LookupCNAME cd w g domain) = Err e)
      /\ hops (LookupCNAME cd w g domain)
         = hops (lookupResourceListL1 cd w g domain TypeTXT)
      /\ lookupId (LookupCNAME cd w g domain)
         = lookupId (lookupResourceListL1 cd w g domain TypeTXT))
  /\ ((forall e, result (lookupResourceListL1 cd w g domain TypeMX) = Err e ->
                 result (LookupMX cd w g domain) = Err e)
      /\ hops (LookupMX cd w g domain)
         = hops (lookupResourceListL1 cd w g domain TypeMX)
      /\ lookupId (LookupMX cd w g domain)
         = lookupId (lookupResourceListL1 cd w g domain TypeMX)).
Proof.
  split; [|split; [|split; [|split; [|split]]]].
  - unfold LookupA.
    same_trace (lookupResourceListL1 cd w g domain TypeA).
  - unfold LookupSOA.
    same_trace (lookupResourceListL1 cd w g domain TypeSOA).
  - unfold LookupNS.
    same_trace (lookupResourceListL1 cd w g domain TypeNS).
  - unfold LookupTXT.
    same_trace (lookupResourceListL1 cd w g domain TypeTXT).
  - unfold LookupCNAME.
    same_trace (lookupResourceListL1 cd w g domain TypeTXT).
  - unfold LookupMX.
    same_trace (lookupResourceListL1 cd w g domain TypeMX).
Qed.

(** No root server can be reached: the lookup of the MX records
    returns the error of the dial. *)
Lemma lookup_errors_propagate_witness :
  result (LookupMX demo_codec dead_world 0 "example.com")
  = Err (ErrDial "192.5.5.241:53").
Proof.
  apply (proj1 (proj2 (proj2 (proj2 (proj2 (proj2
           (lookup_errors_propagate demo_codec dead_world 0
                                    "example.com"))))))).
  vm_compute. reflexivity.
Defined.

(** Two lists with the same MX pairs are sorted to the same list. *)
Lemma sort_Slice_mx_perm (l l' : list MX) :
  Permutation l l' -> sort_Slice mx_less l = sort_Slice mx_less l'.
Proof.
  intros Hp.
  destruct (sort_Slice_mx l) as [Hp1 Hs1].
  destruct (sort_Slice_mx l') as [Hp2 Hs2].
  apply mx_sorted_unique; try assumption.
  rewrite Hp1, Hp. symmetry. exact Hp2.
Qed.

(** X11.  The result of [LookupMX] does not depend on the order in
    which the server gave the records: two answer lists with the same
    MX records, in whatever order and among whatever other records,
    give the same result. *)
Theorem LookupMX_order (cd cd' : Codec) (w w' : World) (g g' : Z)
        (domain domain' : string) (a a' : list Resource) :
  result (lookupResourceListL1 cd w g domain TypeMX) = Ok a ->
  result (lookupResourceListL1 cd' w' g' domain' TypeMX) = Ok a' ->
  Permutation (mx_records a) (mx_records a') ->
  result (LookupMX cd w g domain) = result (LookupMX cd' w' g' domain').
Proof.
  intros E E' Hp. rewrite !LookupMX_spec, E, E'.
  destruct (mx_records a) as [|x xs] eqn:Ea;
    destruct (mx_records a') as [|y ys] eqn:Ea'.
  - reflexivity.
  - apply Permutation_nil in Hp. discriminate Hp.
  - symmetry in Hp. apply Permutation_nil in Hp. discriminate Hp.
  - f_equal. apply sort_Slice_mx_perm, Hp.
Qed.

(** The three MX records, and the same records in the converse order. *)
Lemma LookupMX_order_witness :
  result (LookupMX mail_codec (root_world [x00]) 0 "example.com")
  = result (LookupMX mail_codec (root_world [x01]) 0 "example.com").
Proof.
  apply (LookupMX_order mail_codec mail_codec
                        (root_world [x00]) (root_world [x01]) 0 0
                        "example.com" "example.com"
                        demo_mail (rev demo_mail)
                        ltac:(vm_compute; reflexivity)
                        ltac:(vm_compute; reflexivity)).
  unfold mx_records. apply Permutation_flat_map, Permutation_rev.
Defined.

Lemma substring_all_but_dot (s : string) :
  substring 0 (String.length s) (s ++ ".") = s.
Proof.
  induction s as [|c s IH]; [reflexivity|].
  cbn [String.length String.append substring]. rewrite IH. reflexivity.
Qed.

(** A name written with its final dot loses that dot, and only that
    one. *)
Lemma TrimSuffix_dot (host : string) : TrimSuffix (host ++ ".") "." = host.
Proof.
  unfold TrimSuffix. rewrite HasSuffix_append_dot, string_length_append.
  cbn [String.length].
  replace (String.length host + 1 - 1)%nat with (String.length host) by lia.
  apply substring_all_but_dot.
Qed.

(** X12.  Host names written with their final dot, as the codec gives
    them: a referral whose NS records name the hosts [h1.], [h2.], ...
    makes the server list [h1:53], [h2:53], ..., in the same order, and
    [LookupNS] on answers that are such NS records returns [h1], [h2],
    ....  One dot is removed and no more. *)
Theorem referral_hosts (hosts : list string) (section : list Resource) :
  map Body section = map (fun h => NSResource (mkName (h ++ "."))) hosts ->
  referral section = map (fun h => (h ++ ":53")%string) hosts
  /\ forall cd w g domain,
      result (lookupResourceListL1 cd w g domain TypeNS) = Ok section ->
      hosts <> [] ->
      result (LookupNS cd w g domain) = Ok hosts.
Proof.
  intros Hb.
  assert (Hn : ns_targets section = map (fun h => (h ++ ".")%string) hosts).
  { revert hosts Hb. induction section as [|one rest IH]; intros hosts Hb.
    - destruct hosts; [reflexivity|discriminate Hb].
    - destruct hosts as [|h hosts]; [discriminate Hb|].
      cbn [map] in Hb. inversion Hb as [[H1 H2]].
      unfold ns_targets. cbn [flat_map]. rewrite H1. cbn [app map Name_String].
      f_equal. apply IH, H2. }
  assert (Hr : ns_records section = hosts).
  { clear Hn. revert hosts Hb.
    induction section as [|one rest IH]; intros hosts Hb.
    - destruct hosts; [reflexivity|discriminate Hb].
    - destruct hosts as [|h hosts]; [discriminate Hb|].
      cbn [map] in Hb. inversion Hb as [[H1 H2]].
      unfold ns_records. cbn [flat_map]. rewrite H1. cbn [app Name_String].
      rewrite TrimSuffix_dot. f_equal. apply IH, H2. }
  split.
  - rewrite referral_spec, Hn, map_map. apply map_ext.
    intros h. unfold with_port. rewrite TrimSuffix_dot. reflexivity.
  - intros cd w g domain E Hne. rewrite LookupNS_spec, E, Hr.
    destruct hosts; [contradiction|reflexivity].
Qed.

(** Two name servers; the name of the second ends in two dots. *)
Lemma referral_hosts_witness :
  referral [ mkResource (mkName "com.") 300 (NSResource (mkName "a.gtld."));
             mkResource (mkName "com.") 300 (NSResource (mkName "b..")) ]
  = ["a.gtld:53"; "b.:53"].
Proof.
  apply (proj1 (referral_hosts
                  ["a.gtld"; "b."]
                  [ mkResource (mkName "com.") 300
                               (NSResource (mkName "a.gtld."));
                    mkResource (mkName "com.") 300
                               (NSResource (mkName "b..")) ]
                  eq_refl)).
Defined.

(** X13.  The four list projections keep the order of the answers and
    pass over the answers of other kinds: when the engine returns
    answers, [LookupA] returns the addresses of the A records in dotted
    form, [LookupSOA] and [LookupNS] the name server names without the
    final dot, and [LookupTXT] the strings of all TXT records, one
    record after the other. *)
Theorem lookup_projections (cd : Codec) (w : World) (g : Z) (domain : string)
        (answerList : list Resource) :
  (result (lookupResourceListL1 cd w g domain TypeA) = Ok answerList ->
   a_records answerList <> [] ->
   result (LookupA cd w g domain) = Ok (a_records answerList))
  /\ (result (lookupResourceListL1 cd w g domain TypeSOA) = Ok answerList ->
      soa_records answerList <> [] ->
      result (LookupSOA cd w g domain) = Ok (soa_records answerList))
  /\ (result (lookupResourceListL1 cd w g domain TypeNS) = Ok answerList ->
      ns_records answerList <> [] ->
      result (LookupNS cd w g domain) = Ok (ns_records answerList))
  /\ (result (lookupResourceListL1 cd w g domain TypeTXT) = Ok answerList ->
      txt_records answerList <> [] ->
      result (LookupTXT cd w g domain) = Ok (txt_records answerList)).
Proof.
  split; [|split; [|split]]; intros E Hne.
  - rewrite LookupA_spec, E.
    destruct (a_records answerList); [contradiction|reflexivity].
  - rewrite LookupSOA_spec, E.
    destruct (soa_records answerList); [contradiction|reflexivity].
  - rewrite LookupNS_spec, E.
    destruct (ns_records answerList); [contradiction|reflexivity].
  - rewrite LookupTXT_spec, E.
    destruct (txt_records answerList); [contradiction|reflexivity].
Qed.

(** The address record of the example. *)
Lemma lookup_projections_witness :
  result (LookupA demo_codec answer_world 0 "example.com")
  = Ok ["93.184.216.34"].
Proof.
  apply (proj1 (lookup_projections demo_codec answer_world 0 "example.com"
                                   [demo_answer])).
  - vm_compute. reflexivity.
  - vm_compute. discriminate.
Defined.

(** ** The command *)

Lemma print_values_no_exit (idx : Z) (l : list string) (c : Z) :
  ~ In (Exit c) (print_values idx l).
Proof.
  revert idx. induction l as [|v l IH]; intros idx; cbn [print_values].
  - intros [].
  - intros [H|H]; [discriminate H|exact (IH _ H)].
Qed.

Lemma print_mx_no_exit (idx : Z) (l : list MX) (c : Z) :
  ~ In (Exit c) (print_mx idx l).
Proof.
  revert idx. induction l as [|v l IH]; intros idx; cbn [print_mx].
  - intros [].
  - intros [H|H]; [discriminate H|exact (IH _ H)].
Qed.

(** Where [os.Exit] is called, in the loop: with the code -1, as the
    last thing the command does, and in a turn whose type, after
    [ToUpper], is CNAME. *)
Lemma cli_loop_exit (cd : Codec) (ToUpper : string -> string)
      (net : nat -> World) (args : list string) :
  forall i lookupType g c,
    In (Exit c) (fst (cli_loop cd ToUpper net i lookupType g args)) ->
    c = -1
    /\ (exists k, Nat.iter (S k) ToUpper lookupType = "CNAME")
    /\ exists evs,
        fst (cli_loop cd ToUpper net i lookupType g args) = evs ++ [Exit c].
Proof.
  induction args as [|domain rest IH]; intros i lookupType g c;
    cbn [cli_loop]; [intros []|].
  assert (Hnext : forall j g' evs0,
             ~ In (Exit c) evs0 ->
             In (Exit c)
                (evs0 ++ fst (cli_loop cd ToUpper net j (ToUpper lookupType)
                                       g' rest)) ->
             c = -1
             /\ (exists k, Nat.iter (S k) ToUpper lookupType = "CNAME")
             /\ exists evs,
                 evs0 ++ fst (cli_loop cd ToUpper net j (ToUpper lookupType)
                                       g' rest)
                 = evs ++ [Exit c]).
  { intros j g' evs0 Hno Hin. apply in_app_or in Hin.
    destruct Hin as [Hin|Hin]; [contradiction|].
    destruct (IH j (ToUpper lookupType) g' c Hin) as (Hc & [k Hk] & evs & He).
    split; [exact Hc|]. split.
    - exists (S k). rewrite Nat.iter_succ_r. exact Hk.
    - exists (evs0 ++ evs). rewrite He, app_assoc. reflexivity. }
  destruct (select_fn (ToUpper lookupType)) as [fn|].
  - destruct (result (fn cd (net i) g domain)) as [vl|err|m|].
    + specialize (Hnext (S i) (lookupId (fn cd (net i) g domain))).
      destruct (cli_loop cd ToUpper net (S i) (ToUpper lookupType)
                         (lookupId (fn cd (net i) g domain)) rest)
        as [evs g']. cbn [fst] in *. intros Hin.
      match goal with
      | H : In _ (?h :: ?l :: ?pv ++ evs) |- _ =>
        apply (Hnext (h :: l :: pv)); [|rewrite <- !app_comm_cons; exact H]
      end.
      intros [H|[H|H]]; try discriminate H.
      exact (print_values_no_exit _ _ _ H).
    + specialize (Hnext (S i) (lookupId (fn cd (net i) g domain))).
      destruct (cli_loop cd ToUpper net (S i) (ToUpper lookupType)
                         (lookupId (fn cd (net i) g domain)) rest)
        as [evs g']. cbn [fst] in *. intros Hin.
      match goal with
      | H : In _ (?h :: ?l :: evs) |- _ =>
        apply (Hnext [h; l]); [|exact H]
      end.
      intros [H|[H|[]]]; discriminate H.
    + cbn [fst crash]. intros [H|[H|[]]]; discriminate H.
    + cbn [fst crash]. intros [H|[H|[]]]; discriminate H.
  - destruct (String.eqb_spec (ToUpper lookupType) "CNAME") as [Ec|Ec].
    + destruct (result (LookupCNAME cd (net i) g domain)) as [cname|err|m|].
      * specialize (Hnext (S i) (lookupId (LookupCNAME cd (net i) g domain))).
        destruct (cli_loop cd ToUpper net (S i) (ToUpper lookupType)
                           (lookupId (LookupCNAME cd (net i) g domain)) rest)
          as [evs g']. cbn [fst] in *. intros Hin.
        match goal with
        | H : In _ (?h :: ?l :: evs) |- _ =>
          apply (Hnext [h; l]); [|exact H]
        end.
        intros [H|[H|[]]]; discriminate H.
      * cbn [fst]. intros [H|[H|[H|[]]]]; try discriminate H.
        inversion H; subst c. split; [reflexivity|]. split.
        -- exists 0%nat. exact Ec.
        -- eexists [_; _]. reflexivity.
      * cbn [fst crash]. intros [H|[H|[]]]; discriminate H.
      * cbn [fst crash]. intros [H|[H|[]]]; discriminate H.
    + destruct (ToUpper lookupType =? "MX")%string.
      * destruct (result (LookupMX cd (net i) g domain)) as [vl|err|m|].
        -- specialize (Hnext (S i) (lookupId (LookupMX cd (net i) g domain))).
           destruct (cli_loop cd ToUpper net (S i) (ToUpper lookupType)
                              (lookupId (LookupMX cd (net i) g domain)) rest)
             as [evs g']. cbn [fst] in *. intros Hin.
           match goal with
           | H : In _ (?h :: ?l :: ?pv ++ evs) |- _ =>
             apply (Hnext (h :: l :: pv)); [|rewrite <- !app_comm_cons; exact H]
           end.
           intros [H|[H|H]]; try discriminate H.
           exact (print_mx_no_exit _ _ _ H).
        -- specialize (Hnext (S i) (lookupId (LookupMX cd (net i) g domain))).
           destruct (cli_loop cd ToUpper net (S i) (ToUpper lookupType)
                              (lookupId (LookupMX cd (net i) g domain)) rest)
             as [evs g']. cbn [fst] in *. intros Hin.
           match goal with
           | H : In _ (?h :: ?l :: evs) |- _ =>
             apply (Hnext [h; l]); [|exact H]
           end.
           intros [H|[H|[]]]; discriminate H.
        -- cbn [fst crash]. intros [H|[H|[]]]; discriminate H.
        -- cbn [fst crash]. intros [H|[H|[]]]; discriminate H.
      * cbn [fst]. intros [H|[H|[]]]; discriminate H.
Qed.

(** X14.  The command calls [os.Exit] in two cases only: without a
    domain argument, and after a lookup of type CNAME ([ToUpper] applied
    to the flag once or more gives ["CNAME"]).  The code is -1 and the
    exit is the last event of the trace.  Whatever a lookup of another
    type returns, the command does not exit for it. *)
Theorem cli_exit (cd : Codec) (ToUpper : string -> string)
        (net : nat -> World) (lookupType : string) (g : Z)
        (args : list string) (c : Z) :
  In (Exit c) (fst (cli_run cd ToUpper net lookupType g args)) ->
  c = -1
  /\ (args = [] \/ exists k, Nat.iter (S k) ToUpper lookupType = "CNAME")
  /\ exists evs, fst (cli_run cd ToUpper net lookupType g args)
                 = evs ++ [Exit c].
Proof.
  unfold cli_run. destruct args as [|domain rest].
  - cbn [length Z.of_nat Z.ltb Z.compare fst].
    intros [H|[H|[]]]; [discriminate H|]. inversion H; subst c.
    split; [reflexivity|]. split; [left; reflexivity|].
    eexists [_]. reflexivity.
  - replace (Z.of_nat (length (domain :: rest)) <? 1) with false
      by (symmetry; apply Z.ltb_ge; cbn [length]; lia).
    intros Hin.
    destruct (cli_loop_exit cd ToUpper net (domain :: rest) 0 lookupType g c Hin)
      as (Hc & Hk & He).
    split; [exact Hc|]. split; [right; exact Hk|exact He].
Qed.

(** A CNAME lookup while no server can be reached. *)
Lemma cli_exit_witness :
  -1 = -1
  /\ (["example.com"; "example.org"] = []
      \/ exists k, Nat.iter (S k) ascii_ToUpper "cname" = "CNAME")
  /\ exists evs,
      fst (cli_run demo_codec ascii_ToUpper (fun _ => dead_world) "cname" 0
                   ["example.com"; "example.org"])
      = evs ++ [Exit (-1)].
Proof.
  apply (cli_exit demo_codec ascii_ToUpper (fun _ => dead_world) "cname" 0
                  ["example.com"; "example.org"] (-1)).
  vm_compute. right. right. left. reflexivity.
Defined.

Lemma announced_print_values (idx : Z) (l : list string) :
  announced (print_values idx l) = [].
Proof.
  revert idx. induction l as [|v l IH]; intros idx; [reflexivity|].
  cbn [print_values]. unfold announced. cbn [flat_map app].
  apply IH.
Qed.

Lemma announced_print_mx (idx : Z) (l : list MX) :
  announced (print_mx idx l) = [].
Proof.
  revert idx. induction l as [|v l IH]; intros idx; [reflexivity|].
  cbn [print_mx]. unfold announced. cbn [flat_map app].
  apply IH.
Qed.

Lemma announced_app (evs evs' : list event) :
  announced (evs ++ evs') = announced evs ++ announced evs'.
Proof. unfold announced. apply flat_map_app. Qed.

(** The lines that announce the domains, for a type that is looked up
    with [LookupA], [LookupSOA], [LookupNS], [LookupTXT] or [LookupMX]:
    when no lookup panics, one line for each argument. *)
Lemma cli_loop_announced (cd : Codec) (ToUpper : string -> string)
      (net : nat -> World) (T : string) :
  (exists fn, select_fn T = Some fn)
  \/ (select_fn T = None /\ (T =? "CNAME")%string = false
      /\ (T =? "MX")%string = true) ->
  ToUpper T = T ->
  forall args i lookupType g,
    ToUpper lookupType = T ->
    (forall m, ~ In (Crash m)
                 (fst (cli_loop cd ToUpper net i lookupType g args))) ->
    announced (fst (cli_loop cd ToUpper net i lookupType g args))
    = match args with
      | [] => []
      | domain :: rest =>
        (domain, lookupType) :: map (fun d => (d, T)) rest
      end.
Proof.
  intros Hsel HT.
  induction args as [|domain rest IH]; intros i lookupType g Hlt;
    [reflexivity|].
  assert (Hrest : forall j g',
             (forall m, ~ In (Crash m)
                          (fst (cli_loop cd ToUpper net j T g' rest))) ->
             announced (fst (cli_loop cd ToUpper net j T g' rest))
             = map (fun d => (d, T)) rest).
  { intros j g' Hnc. rewrite (IH j T g' HT Hnc). destruct rest; reflexivity. }
  clear IH. cbn [cli_loop]. rewrite Hlt.
  destruct Hsel as [[fn Hfn]|(Hn & Hc & Hm)].
  - rewrite Hfn.
    destruct (result (fn cd (net i) g domain)) as [vl|err|m|].
    + specialize (Hrest (S i) (lookupId (fn cd (net i) g domain))).
      destruct (cli_loop cd ToUpper net (S i) T
                         (lookupId (fn cd (net i) g domain)) rest)
        as [evs g']. cbn [fst] in *. intros Hnc.
      change (announced
                (Println [VString "查询"; VString domain; VString "的";
                          VString lookupType; VString "记录"]
                   :: Println [VString "查询到";
                               VInt (Z.of_nat (length vl)); VString "条";
                               VString T; VString "记录"]
                   :: print_values 0 vl ++ evs))
        with ((domain, lookupType) :: announced (print_values 0 vl ++ evs)).
      rewrite announced_app, announced_print_values. cbn [app].
      f_equal. apply Hrest. intros m Hin. apply (Hnc m).
      right. right. apply in_or_app. right. exact Hin.
    + specialize (Hrest (S i) (lookupId (fn cd (net i) g domain))).
      destruct (cli_loop cd ToUpper net (S i) T
                         (lookupId (fn cd (net i) g domain)) rest)
        as [evs g']. cbn [fst] in *. intros Hnc.
      change (announced
                (Println [VString "查询"; VString domain; VString "的";
                          VString lookupType; VString "记录"]
                   :: Println [VString "查询出错"; VError err] :: evs))
        with ((domain, lookupType) :: announced evs).
      f_equal. apply Hrest. intros m Hin. apply (Hnc m).
      right. right. exact Hin.
    + cbn [fst crash]. intros Hnc. exfalso. apply (Hnc m).
      right. left. reflexivity.
    + cbn [fst crash]. intros Hnc. exfalso. apply (Hnc "unreachable").
      right. left. reflexivity.
  - rewrite Hn, Hc, Hm.
    destruct (result (LookupMX cd (net i) g domain)) as [vl|err|m|].
    + specialize (Hrest (S i) (lookupId (LookupMX cd (net i) g domain))).
      destruct (cli_loop cd ToUpper net (S i) T
                         (lookupId (LookupMX cd (net i) g domain)) rest)
        as [evs g']. cbn [fst] in *. intros Hnc.
      change (announced
                (Println [VString "查询"; VString domain; VString "的";
                          VString lookupType; VString "记录"]
                   :: Println [VString "查询到";
                               VInt (Z.of_nat (length vl));
                               VString "条 MX 记录"]
                   :: print_mx 0 vl ++ evs))
        with ((domain, lookupType) :: announced (print_mx 0 vl ++ evs)).
      rewrite announced_app, announced_print_mx. cbn [app].
      f_equal. apply Hrest. intros m Hin. apply (Hnc m).
      right. right. apply in_or_app. right. exact Hin.
    + specialize (Hrest (S i) (lookupId (LookupMX cd (net i) g domain))).
      destruct (cli_loop cd ToUpper net (S i) T
                         (lookupId (LookupMX cd (net i) g domain)) rest)
        as [evs g']. cbn [fst] in *. intros Hnc.
      change (announced
                (Println [VString "查询"; VString domain; VString "的";
                          VString lookupType; VString "记录"]
                   :: Println [VString "查询出错"; VError err] :: evs))
        with ((domain, lookupType) :: announced evs).
      f_equal. apply Hrest. intros m Hin. apply (Hnc m).
      right. right. exact Hin.
    + cbn [fst crash]. intros Hnc. exfalso. apply (Hnc m).
      right. left. reflexivity.
    + cbn [fst crash]. intros Hnc. exfalso. apply (Hnc "unreachable").
      right. left. reflexivity.
Qed.

(** X15.  For the types A, SOA, NS, TXT and MX, and as long as no
    lookup panics, the command goes through all its arguments whatever
    the lookups return: the trace has one announcing line for each
    domain, in order.  The line of the first domain shows the type as
    it was given, the lines of the others show it in upper case. *)
Theorem cli_continues (cd : Codec) (ToUpper : string -> string)
        (net : nat -> World) (lookupType : string) (g : Z)
        (domain : string) (rest : list string) :
  In (ToUpper lookupType) ["A"; "SOA"; "NS"; "TXT"; "MX"] ->
  ToUpper (ToUpper lookupType) = ToUpper lookupType ->
  (forall m, ~ In (Crash m)
               (fst (cli_run cd ToUpper net lookupType g (domain :: rest)))) ->
  announced (fst (cli_run cd ToUpper net lookupType g (domain :: rest)))
  = (domain, lookupType) :: map (fun d => (d, ToUpper lookupType)) rest.
Proof.
  intros HT Hid Hnc. unfold cli_run in *.
  replace (Z.of_nat (length (domain :: rest)) <? 1) with false in *
    by (symmetry; apply Z.ltb_ge; cbn [length]; lia).
  apply (cli_loop_announced cd ToUpper net (ToUpper lookupType));
    try assumption; try reflexivity.
  destruct HT as [<-|[<-|[<-|[<-|[<-|[]]]]]].
  - left. eexists. reflexivity.
  - left. eexists. reflexivity.
  - left. eexists. reflexivity.
  - left. eexists. reflexivity.
  - right. repeat split.
Qed.

(** Two domains, type [a], while no server can be reached. *)
Lemma cli_continues_witness :
  announced (fst (cli_run demo_codec ascii_ToUpper (fun _ => dead_world)
                          "a" 0 ["example.com"; "example.org"]))
  = [("example.com", "a"); ("example.org", "A")].
Proof.
  apply (cli_continues demo_codec ascii_ToUpper (fun _ => dead_world) "a" 0
                       "example.com" ["example.org"]).
  - left. reflexivity.
  - reflexivity.
  - intros m. vm_compute. intros [H|[H|[H|[H|[]]]]]; discriminate H.
Defined.

(** X16.  With a type that is none of A, SOA, NS, TXT, CNAME and MX
    the command announces the first domain, prints its help and
    returns: it makes no lookup, leaves the counter as it was, and does
    not come to the other domains. *)
Theorem cli_unknown_type (cd : Codec) (ToUpper : string -> string)
        (net : nat -> World) (lookupType : string) (g : Z)
        (domain : string) (rest : list string) :
  ~ In (ToUpper lookupType) ["A"; "SOA"; "NS"; "TXT"; "CNAME"; "MX"] ->
  cli_run cd ToUpper net lookupType g (domain :: rest)
  = ([header_of domain lookupType; Help], g).
Proof.
  intros Hno. unfold cli_run.
  replace (Z.of_nat (length (domain :: rest)) <? 1) with false
    by (symmetry; apply Z.ltb_ge; cbn [length]; lia).
  cbn [cli_loop]. unfold select_fn.
  repeat match goal with
         | |- context [(ToUpper lookupType =? ?s)%string] =>
           destruct (String.eqb_spec (ToUpper lookupType) s) as [E|E];
             [exfalso; apply Hno; rewrite E; cbn [In]; tauto|clear E]
         end.
  reflexivity.
Qed.

(** The type AAAA. *)
Lemma cli_unknown_type_witness :
  cli_run demo_codec ascii_ToUpper (fun _ => answer_world) "aaaa" 5
          ["example.com"; "example.org"]
  = ([header_of "example.com" "aaaa"; Help], 5).
Proof.
  apply (cli_unknown_type demo_codec ascii_ToUpper (fun _ => answer_world)
                          "aaaa" 5 "example.com" ["example.org"]).
  vm_compute. intros [H|[H|[H|[H|[H|[H|[]]]]]]]; discriminate H.
Defined.

(** In a loop whose type is CNAME, a line that reports an error is
    followed by the exit and by nothing else. *)
Lemma cli_loop_cname_error (cd : Codec) (ToUpper : string -> string)
      (net : nat -> World) :
  ToUpper "CNAME" = "CNAME" ->
  forall args i lookupType g evs1 e evs2,
    ToUpper lookupType = "CNAME" ->
    fst (cli_loop cd ToUpper net i lookupType g args)
    = evs1 ++ Println [VString "查询出错"; VError e] :: evs2 ->
    evs2 = [Exit (-1)].
Proof.
  intros HT.
  induction args as [|domain rest IH]; intros i lookupType g evs1 e evs2 Hlt;
    cbn [cli_loop].
  - cbn [fst]. intros H. destruct evs1; discriminate H.
  - rewrite Hlt.
    change (select_fn "CNAME") with
      (@None (Codec -> World -> Z -> string -> Run (list string))).
    change ("CNAME" =? "CNAME")%string with true. cbv iota.
    destruct (result (LookupCNAME cd (net i) g domain)) as [cname|err|m|].
    + specialize (IH (S i) "CNAME"
                     (lookupId (LookupCNAME cd (net i) g domain))).
      destruct (cli_loop cd ToUpper net (S i) "CNAME"
                         (lookupId (LookupCNAME cd (net i) g domain)) rest)
        as [evs g']. cbn [fst] in *. intros H.
      destruct evs1 as [|x [|y evs1]]; cbn [app] in H.
      * discriminate H.
      * discriminate H.
      * inversion H as [[Hx Hy He]]. eapply IH; [exact HT|exact He].
    + cbn [fst]. intros H.
      destruct evs1 as [|x [|y [|z evs1]]]; cbn [app] in H.
      * discriminate H.
      * inversion H. reflexivity.
      * discriminate H.
      * inversion H as [[Hx Hy Hz He]]. destruct evs1; discriminate He.
    + cbn [fst crash]. intros H.
      destruct evs1 as [|x [|y evs1]]; cbn [app] in H; try discriminate H.
      inversion H as [[Hx Hy He]]. destruct evs1; discriminate He.
    + cbn [fst crash]. intros H.
      destruct evs1 as [|x [|y evs1]]; cbn [app] in H; try discriminate H.
      inversion H as [[Hx Hy He]]. destruct evs1; discriminate He.
Qed.

(** X17.  With the type CNAME the first lookup that fails ends the
    command: in the trace, a line that reports an error is followed by
    the exit with the code -1 and by nothing else, so the domains after
    it are not looked up. *)
Theorem cli_cname_error (cd : Codec) (ToUpper : string -> string)
        (net : nat -> World) (lookupType : string) (g : Z)
        (args : list string) (evs1 : list event) (e : error)
        (evs2 : list event) :
  ToUpper lookupType = "CNAME" ->
  ToUpper "CNAME" = "CNAME" ->
  fst (cli_run cd ToUpper net lookupType g args)
  = evs1 ++ Println [VString "查询出错"; VError e] :: evs2 ->
  evs2 = [Exit (-1)].
Proof.
  intros Hlt HT. unfold cli_run.
  destruct (Z.of_nat (length args) <? 1).
  - cbn [fst]. intros H.
    destruct evs1 as [|x [|y evs1]]; cbn [app] in H; try discriminate H.
    inversion H as [[Hx Hy He]]. destruct evs1; discriminate He.
  - intros H.
    apply (cli_loop_cname_error cd ToUpper net HT args 0 lookupType g
                                evs1 e evs2 Hlt H).
Qed.

(** Two domains, type [cname], while no server can be reached: the
    second domain is not announced. *)
Lemma cli_cname_error_witness :
  match fst (cli_run demo_codec ascii_ToUpper (fun _ => dead_world) "cname" 0
                     ["example.com"; "example.org"]) with
  | _ :: _ :: evs2 => evs2
  | _ => []
  end = [Exit (-1)].
Proof.
  apply (cli_cname_error demo_codec ascii_ToUpper (fun _ => dead_world)
                         "cname" 0 ["example.com"; "example.org"]
                         [header_of "example.com" "cname"]
                         (ErrDial "192.5.5.241:53")
                         _ eq_refl eq_refl).
  vm_compute. reflexivity.
Defined.

(** ** The identifiers of a process *)

(** X18.  In a process, two queries that are less than 65536 queries
    apart carry different identifiers. *)
Theorem query_ids_distinct (cd : Codec)
        (calls : list (World * string * RType)) (k k' : nat) (id id' : Z) :
  nth_error (query_ids (session cd calls 0)) k = Some id ->
  nth_error (query_ids (session cd calls 0)) k' = Some id' ->
  (k < k')%nat ->
  Z.of_nat k' - Z.of_nat k < 65536 ->
  id <> id'.
Proof.
  intros Hk Hk' Hlt Hnear.
  apply session_ids in Hk, Hk'. subst id id'. unfold uint16. intros E.
  assert (H0 : (0 + Z.of_nat k' + 1 - (0 + Z.of_nat k + 1)) mod 65536 = 0).
  { rewrite Zminus_mod, E, Z.sub_diag. reflexivity. }
  rewrite Z.mod_small in H0 by lia. lia.
Qed.

(** The first two queries of a process. *)
Lemma query_ids_distinct_witness : 1 <> 2.
Proof.
  apply (query_ids_distinct
           demo_codec
           [ (dead_world, "example.com", TypeA);
             (dead_world, "example.org", TypeMX) ] 0 1 1 2).
  - vm_compute. reflexivity.
  - vm_compute. reflexivity.
  - lia.
  - vm_compute. reflexivity.
Defined.
